(** * Crownstone Homey app: device command dispatch, key cache, presence flow cards

    A shallow embedding of the three JavaScript/TypeScript sources of the
    app:

    - the device driver ([Module Device]): [changeLockState],
      [changeDimCapability], [onCapabilityDim], [onCapabilityOnoff],
      [switchCloud], [switchBLE], [getKeys], [findCrownstone];
    - the flow-card application ([Module App]): the run listeners of the
      presence trigger and condition, [eventHandler], [getCurrentLocation];
    - the TypeScript application ([Module AppTs]): [setupConnections],
      [synchronizeCloud], [setSettings], [runLocationTrigger].

    Asynchronous functions are written in a small free monad [prog] whose
    [Await] nodes are the suspension points of the source ([await e]).  Two
    semantics are given: [exec] runs one handler alone against an environment
    that settles every call, [step] interleaves several handlers the way the
    JavaScript event loop does (run to the next [await], then any suspended
    task may be resumed). *)

From Stdlib Require Import Bool List String Ascii ZArith Lia Floats.
Import ListNotations.
Open Scope string_scope.
Open Scope list_scope.

(** ** JavaScript values that the sources distinguish *)

(** Slots such as [this.adminKey], [inLocationId] or a key sent by the cloud
    hold [undefined], [null] or a string. *)
Inductive jsval : Type :=
| JUndefined
| JNull
| JStr (s : string).

(** [a === b] on those values. *)
Definition strictEq (a b : jsval) : bool :=
  match a, b with
  | JUndefined, JUndefined => true
  | JNull, JNull => true
  | JStr s, JStr t => String.eqb s t
  | _, _ => false
  end.

(** [typeof v !== 'undefined'] *)
Definition isDefined (v : jsval) : bool :=
  match v with JUndefined => false | _ => true end.

(** [v !== null] *)
Definition notNull (v : jsval) : bool :=
  match v with JNull => false | _ => true end.

(** A rejected promise or a thrown exception carries a message. *)
Definition error : Type := string.

Inductive outcome (X : Type) : Type :=
| Resolved (x : X)
| Rejected (e : error).
Arguments Resolved {X} x.
Arguments Rejected {X} e.

Inductive result (A : Type) : Type :=
| Val (a : A)
| Exn (e : error).
Arguments Val {A} a.
Arguments Exn {A} e.

(** ** Asynchronous programs *)

Section Async.
(** [W] is the mutable state the code reads and writes (module-level
    variables, fields of [this]); [call] the operations of the external
    collaborators (platform, cloud, radio link) and [resp c] what call [c]
    resolves with; [effect] what the collaborator does to the state when
    the call settles. *)
Variable W : Type.
Variable call : Type.
Variable resp : call -> Type.
Variable effect : forall c : call, outcome (resp c) -> W -> W.

Inductive prog (A : Type) : Type :=
| Ret (a : A)
| Throw (e : error)
| Get (k : W -> prog A)
| Modify (f : W -> W) (k : prog A)
| Await (c : call) (k : outcome (resp c) -> prog A)
| Fire (c : call) (k : prog A)
| Yield (k : prog A).
Arguments Ret {A} a.
Arguments Throw {A} e.
Arguments Get {A} k.
Arguments Modify {A} f k.
Arguments Await {A} c k.
Arguments Fire {A} c k.
Arguments Yield {A} k.

Fixpoint bind {A B} (p : prog A) (f : A -> prog B) : prog B :=
  match p with
  | Ret a => f a
  | Throw e => Throw e
  | Get k => Get (fun w => bind (k w) f)
  | Modify g k => Modify g (bind k f)
  | Await c k => Await c (fun o => bind (k o) f)
  | Fire c k => Fire c (bind k f)
  | Yield k => Yield (bind k f)
  end.

(** [p.catch(h)], and [try { p } catch (e) { h e }]. *)
Fixpoint catch {A} (p : prog A) (h : error -> prog A) : prog A :=
  match p with
  | Ret a => Ret a
  | Throw e => h e
  | Get k => Get (fun w => catch (k w) h)
  | Modify g k => Modify g (catch k h)
  | Await c k => Await c (fun o => catch (k o) h)
  | Fire c k => Fire c (catch k h)
  | Yield k => Yield (catch k h)
  end.

(** [await c]: the awaited expression evaluates to what the call resolved
    with, or throws what it was rejected with. *)
Definition await (c : call) : prog (resp c) :=
  Await c (fun o => match o with
                    | Resolved x => Ret x
                    | Rejected e => Throw e
                    end).

(** A call whose promise is not awaited ([f().catch(this.error)]). *)
Definition fire (c : call) : prog unit := Fire c (Ret tt).

Definition gets {A} (f : W -> A) : prog A := Get (fun w => Ret (f w)).
Definition modify (f : W -> W) : prog unit := Modify f (Ret tt).

(** *** One handler alone *)

(** The environment decides how the [n]-th call of a run settles. *)
Definition environment : Type := nat -> forall c : call, outcome (resp c).

Record estate : Type := mkEstate {
  world : W;
  trace : list call;
  pending : list (nat * call)
}.

Definition start (w : W) : estate := mkEstate w [] [].

(** Every awaited call settles before the code after the [await] runs; a
    fired call is recorded and settles after the handler has returned. *)
Fixpoint exec {A} (p : prog A) (env : environment) (s : estate)
  : estate * result A :=
  match p with
  | Ret a => (s, Val a)
  | Throw e => (s, Exn e)
  | Get k => exec (k (world s)) env s
  | Modify f k => exec k env (mkEstate (f (world s)) (trace s) (pending s))
  | Await c k =>
      let o := env (List.length (trace s)) c in
      exec (k o) env
           (mkEstate (effect c o (world s)) (trace s ++ [c]) (pending s))
  | Fire c k =>
      exec k env
           (mkEstate (world s) (trace s ++ [c])
                     (pending s ++ [(List.length (trace s), c)]))
  | Yield k => exec k env s
  end.

Definition settle (env : environment) (s : estate) : estate :=
  mkEstate
    (fold_left (fun w nc => effect (snd nc) (env (fst nc) (snd nc)) w)
               (pending s) (world s))
    (trace s) [].

Definition complete {A} (p : prog A) (env : environment) (w : W)
  : estate * result A :=
  let sr := exec p env (start w) in (settle env (fst sr), snd sr).

(** *** Several handlers interleaved *)

Section Scheduler.
(** [request] names the entry points the platform may call and [handler]
    gives their code. *)
Variable request : Type.
Variable handler : request -> prog unit.

Inductive task : Type :=
| Waiting (c : call) (k : outcome (resp c) -> prog unit)
| Yielded (k : prog unit)
| Detached (c : call).

Record config : Type := mkConfig {
  cworld : W;
  ctrace : list call;
  pool : list (request * task);
  uncaught : list error
}.

Definition init (w : W) : config := mkConfig w [] [] [].

(** Run the code of a task until it suspends, returns or throws. *)
Fixpoint run (r : request) (p : prog unit) (cfg : config) : config :=
  match p with
  | Ret _ => cfg
  | Throw e =>
      mkConfig (cworld cfg) (ctrace cfg) (pool cfg) (uncaught cfg ++ [e])
  | Get k => run r (k (cworld cfg)) cfg
  | Modify f k =>
      run r k (mkConfig (f (cworld cfg)) (ctrace cfg) (pool cfg)
                        (uncaught cfg))
  | Await c k =>
      mkConfig (cworld cfg) (ctrace cfg ++ [c])
               (pool cfg ++ [(r, Waiting c k)]) (uncaught cfg)
  | Fire c k =>
      run r k (mkConfig (cworld cfg) (ctrace cfg ++ [c])
                        (pool cfg ++ [(r, Detached c)]) (uncaught cfg))
  | Yield k =>
      mkConfig (cworld cfg) (ctrace cfg) (pool cfg ++ [(r, Yielded k)])
               (uncaught cfg)
  end.

Definition remove_nth {X} (i : nat) (l : list X) : list X :=
  firstn i l ++ skipn (S i) l.

(** What the event loop can do next: the platform calls a handler, or
    the [i]-th suspended task is resumed with the outcome of its call. *)
Inductive event : Type :=
| Request (r : request)
| Settle (i : nat) (o : forall c : call, outcome (resp c)).

Definition step (cfg : config) (ev : event) : config :=
  match ev with
  | Request r => run r (handler r) cfg
  | Settle i o =>
      match nth_error (pool cfg) i with
      | None => cfg
      | Some (r, Waiting c k) =>
          run r (k (o c))
              (mkConfig (effect c (o c) (cworld cfg)) (ctrace cfg)
                        (remove_nth i (pool cfg)) (uncaught cfg))
      | Some (r, Yielded k) =>
          run r k (mkConfig (cworld cfg) (ctrace cfg)
                            (remove_nth i (pool cfg)) (uncaught cfg))
      | Some (r, Detached c) =>
          mkConfig (effect c (o c) (cworld cfg)) (ctrace cfg)
                   (remove_nth i (pool cfg)) (uncaught cfg)
      end
  end.

Definition steps (cfg : config) (evs : list event) : config :=
  fold_left step evs cfg.

Inductive reachable (w : W) : config -> Prop :=
| reach_init : reachable w (init w)
| reach_step cfg ev : reachable w cfg -> reachable w (step cfg ev).
End Scheduler.
End Async.

Arguments Ret {W call resp A} a.
Arguments Throw {W call resp A} e.
Arguments Get {W call resp A} k.
Arguments Modify {W call resp A} f k.
Arguments Await {W call resp A} c k.
Arguments Fire {W call resp A} c k.
Arguments Yield {W call resp A} k.
Arguments bind {W call resp A B} p f.
Arguments catch {W call resp A} p h.
Arguments await {W call resp} c.
Arguments fire {W call resp} c.
Arguments gets {W call resp A} f.
Arguments modify {W call resp} f.
Arguments world {W call} e.
Arguments trace {W call} e.
Arguments pending {W call} e.
Arguments mkEstate {W call} world trace pending.
Arguments start {W call} w.
Arguments exec {W call resp} effect {A} p env s.
Arguments settle {W call resp} effect env s.
Arguments complete {W call resp} effect {A} p env w.
Arguments Waiting {W call resp} c k.
Arguments Yielded {W call resp} k.
Arguments Detached {W call resp} c.
Arguments cworld {W call resp request} c.
Arguments ctrace {W call resp request} c.
Arguments pool {W call resp request} c.
Arguments uncaught {W call resp request} c.
Arguments mkConfig {W call resp request} cworld ctrace pool uncaught.
Arguments init {W call resp request} w.
Arguments run {W call resp request} r p cfg.
Arguments Request {call resp request} r.
Arguments Settle {call resp request} i o.
Arguments step {W call resp} effect {request} handler cfg ev.
Arguments steps {W call resp} effect {request} handler cfg evs.
Arguments reachable {W call resp} effect {request} handler w cfg.

Declare Scope prog_scope.
Delimit Scope prog_scope with prog.
Notation "x <- p ;; k" := (bind p (fun x => k))
  (at level 61, p at next level, right associativity) : prog_scope.
Notation "p ;; k" := (bind p (fun _ => k))
  (at level 61, right associativity) : prog_scope.
Open Scope prog_scope.

(** ** The device driver *)

Module Device.

(** *** Data *)

(** [this.bluenet.settings]: the three keys of the radio library. *)
Record BluenetSettings : Type := mkSettings {
  settings_adminKey : jsval;
  settings_memberKey : jsval;
  settings_basicKey : jsval
}.

(** Modelled from the spec: [settings.loadKeys(admin, member, basic)] of
    the radio library (blelib/Bluenet, not among the sources) stores the
    three keys of the key set it is given. *)
Definition loadKeys (admin member basic : jsval) (_ : BluenetSettings)
  : BluenetSettings :=
  mkSettings admin member basic.

(** An element of [keysInSphere.sphereKeys]. *)
Record SphereKey : Type := mkSphereKey {
  keyType : string;
  key : jsval
}.

(** What [homeyAdvertisement] can hold. *)
Inductive advertisement : Type :=
| AdvUndefined
| AdvNull
| AdvFound (peripheral : string).

(** [if (homeyAdvertisement)] *)
Definition truthy (a : advertisement) : bool :=
  match a with AdvFound _ => true | _ => false end.

(** A device instance: [getData()], the platform's view of it
    ([getAvailable()], [getCapabilities()]) and the fields of [this]. *)
Record CrownstoneDevice : Type := mkDevice {
  data_id : string;
  data_address : string;
  data_locked : bool;
  data_dimmed : bool;
  available : bool;
  capabilities : list string;
  state : Z;
  adminKey : jsval;
  memberKey : jsval;
  basicKey : jsval;
  settings : BluenetSettings
}.

Definition set_locked (b : bool) (d : CrownstoneDevice) :=
  mkDevice (data_id d) (data_address d) b (data_dimmed d) (available d)
           (capabilities d) (state d) (adminKey d) (memberKey d)
           (basicKey d) (settings d).
Definition set_dimmed (b : bool) (d : CrownstoneDevice) :=
  mkDevice (data_id d) (data_address d) (data_locked d) b (available d)
           (capabilities d) (state d) (adminKey d) (memberKey d)
           (basicKey d) (settings d).
Definition set_available (b : bool) (d : CrownstoneDevice) :=
  mkDevice (data_id d) (data_address d) (data_locked d) (data_dimmed d) b
           (capabilities d) (state d) (adminKey d) (memberKey d)
           (basicKey d) (settings d).
Definition set_capabilities (l : list string) (d : CrownstoneDevice) :=
  mkDevice (data_id d) (data_address d) (data_locked d) (data_dimmed d)
           (available d) l (state d) (adminKey d) (memberKey d)
           (basicKey d) (settings d).
Definition set_state (z : Z) (d : CrownstoneDevice) :=
  mkDevice (data_id d) (data_address d) (data_locked d) (data_dimmed d)
           (available d) (capabilities d) z (adminKey d) (memberKey d)
           (basicKey d) (settings d).
Definition set_adminKey (k : jsval) (d : CrownstoneDevice) :=
  mkDevice (data_id d) (data_address d) (data_locked d) (data_dimmed d)
           (available d) (capabilities d) (state d) k (memberKey d)
           (basicKey d) (settings d).
Definition set_memberKey (k : jsval) (d : CrownstoneDevice) :=
  mkDevice (data_id d) (data_address d) (data_locked d) (data_dimmed d)
           (available d) (capabilities d) (state d) (adminKey d) k
           (basicKey d) (settings d).
Definition set_basicKey (k : jsval) (d : CrownstoneDevice) :=
  mkDevice (data_id d) (data_address d) (data_locked d) (data_dimmed d)
           (available d) (capabilities d) (state d) (adminKey d)
           (memberKey d) k (settings d).
Definition set_settings (s : BluenetSettings) (d : CrownstoneDevice) :=
  mkDevice (data_id d) (data_address d) (data_locked d) (data_dimmed d)
           (available d) (capabilities d) (state d) (adminKey d)
           (memberKey d) (basicKey d) s.

(** The module-level flags, the login state the application reports
    ([Homey.app.getLoginState()]) and the device instances. *)
Record World : Type := mkWorld {
  activeConnection : bool;
  activeConnectionDim : bool;
  loginState : bool;
  devices : nat -> CrownstoneDevice
}.

Definition set_activeConnection (b : bool) (w : World) :=
  mkWorld b (activeConnectionDim w) (loginState w) (devices w).
Definition set_activeConnectionDim (b : bool) (w : World) :=
  mkWorld (activeConnection w) b (loginState w) (devices w).
Definition set_loginState (b : bool) (w : World) :=
  mkWorld (activeConnection w) (activeConnectionDim w) b (devices w).
Definition update_device (self : nat)
           (f : CrownstoneDevice -> CrownstoneDevice) (w : World) :=
  mkWorld (activeConnection w) (activeConnectionDim w) (loginState w)
          (fun n => if Nat.eqb n self then f (devices w n) else devices w n).

(** The value given to [setCapabilityValue]. *)
Inductive capValue : Type :=
| CapBool (b : bool)
| CapNum (x : float).

(** *** External collaborators: platform, cloud, application, radio link *)

Inductive call : Type :=
| SetUnavailable (self : nat) (message : string)
| SetAvailable (self : nat)
| AddCapability (self : nat) (capability : string)
| RemoveCapability (self : nat) (capability : string)
| SetCapabilityValue (self : nat) (capability : string) (v : capValue)
| CloudTurnOn (id : string)
| CloudTurnOff (id : string)
| CloudSetSwitch (id : string) (percentage : float)
| AppGetSphereId
| CloudSphereKeys (sphereId : jsval)
| BleFind (uuid : string) (timeout : Z)
| BleConnect (self : nat) (adv : advertisement)
| BleSetSwitchState (self : nat) (state : Z)
| BleControlDisconnect (self : nat)
| BleDisconnect (self : nat).

Definition resp (c : call) : Type :=
  match c with
  | AppGetSphereId => jsval
  | CloudSphereKeys _ => list SphereKey
  | BleFind _ _ => advertisement
  | _ => unit
  end.

(** [getCapabilities().includes(cap)] *)
Definition includes (cap : string) (caps : list string) : bool :=
  existsb (String.eqb cap) caps.

(** The platform keeps the availability and the capability list of a
    device; a platform call that resolves has changed them, one that is
    rejected has not.  The other collaborators do not touch the state of
    the driver. *)
Definition effect (c : call) : outcome (resp c) -> World -> World :=
  match c with
  | SetUnavailable self _ => fun o w =>
      match o with
      | Resolved _ => update_device self (set_available false) w
      | Rejected _ => w
      end
  | SetAvailable self => fun o w =>
      match o with
      | Resolved _ => update_device self (set_available true) w
      | Rejected _ => w
      end
  | AddCapability self cap => fun o w =>
      match o with
      | Resolved _ =>
          update_device self
            (fun d => set_capabilities (capabilities d ++ [cap]) d) w
      | Rejected _ => w
      end
  | RemoveCapability self cap => fun o w =>
      match o with
      | Resolved _ =>
          update_device self
            (fun d => set_capabilities
                        (filter (fun x => negb (String.eqb cap x))
                                (capabilities d)) d) w
      | Rejected _ => w
      end
  | _ => fun _ w => w
  end.

Definition prog : Type -> Type := prog World call resp.
Definition await (c : call) : prog (resp c) := await c.
Definition fire (c : call) : prog unit := fire c.

Definition this (self : nat) : prog CrownstoneDevice :=
  gets (fun w => devices w self).
Definition setThis (self : nat) (f : CrownstoneDevice -> CrownstoneDevice)
  : prog unit :=
  modify (update_device self f).

(** *** The methods of [CrownstoneDevice] *)

Definition changeLockState (self : nat) (state : bool) : prog unit :=
  d <- this self ;;
  if state && available d then
    setThis self (set_locked true) ;;
    await (SetUnavailable self "This device is locked.")
  else if negb state && negb (available d) then
    setThis self (set_locked false) ;;
    await (SetAvailable self)
  else Ret tt.

Definition changeDimCapability (self : nat) (state : bool) : prog unit :=
  d <- this self ;;
  if state && negb (includes "dim" (capabilities d)) then
    setThis self (set_dimmed true) ;;
    fire (AddCapability self "dim")
  else if negb state && includes "dim" (capabilities d) then
    setThis self (set_dimmed false) ;;
    fire (RemoveCapability self "dim")
  else Ret tt.

(** [let percentage = value*100;
     if (percentage > 0 && percentage < 10) { percentage = 10; }] *)
Definition percentage (value : float) : float :=
  let percentage := (value * 100)%float in
  if (0 <? percentage)%float && (percentage <? 10)%float then 10%float
  else percentage.

Definition onCapabilityDim (self : nat) (value : float) : prog unit :=
  busy <- gets activeConnection ;;
  loggedIn <- gets loginState ;;
  if negb busy && loggedIn then
    modify (set_activeConnectionDim true) ;;
    let percentage := percentage value in
    (if (0 <? percentage)%float then
       await (SetCapabilityValue self "onoff" (CapBool true))
     else if (percentage <? 1)%float then
       await (SetCapabilityValue self "onoff" (CapBool false))
     else Ret tt) ;;
    d <- this self ;;
    await (CloudSetSwitch (data_id d) percentage) ;;
    modify (set_activeConnectionDim false)
  else Ret tt.

Definition switchCloud (self : nat) (value : bool) : prog unit :=
  d <- this self ;;
  if value then await (CloudTurnOn (data_id d))
  else await (CloudTurnOff (data_id d)).

(** The [for] loop of [getKeys] over [keysInSphere.sphereKeys]. *)
Fixpoint storeKeys (keyArray : list SphereKey) (d : CrownstoneDevice)
  : CrownstoneDevice :=
  match keyArray with
  | [] => d
  | k :: rest =>
      storeKeys rest
        (if String.eqb (keyType k) "ADMIN_KEY" then set_adminKey (key k) d
         else if String.eqb (keyType k) "MEMBER_KEY" then
                set_memberKey (key k) d
         else if String.eqb (keyType k) "BASIC_KEY" then
                set_basicKey (key k) d
         else d)
  end.

Definition keysObtained (s : BluenetSettings) : bool :=
  notNull (settings_adminKey s) && notNull (settings_memberKey s)
  && notNull (settings_basicKey s).

Definition getKeys (self : nat) : prog unit :=
  d <- this self ;;
  if keysObtained (settings d) then Ret tt
  else
    sphereId <- await AppGetSphereId ;;
    keysInSphere <- await (CloudSphereKeys sphereId) ;;
    setThis self (storeKeys keysInSphere) ;;
    setThis self (fun d => set_settings
                             (loadKeys (adminKey d) (memberKey d)
                                       (basicKey d) (settings d)) d).

(** [address.toLowerCase().replace(/:/g, '')] on an ASCII address. *)
Definition lowerChar (c : ascii) : ascii :=
  let n := nat_of_ascii c in
  if Nat.leb 65 n && Nat.leb n 90 then ascii_of_nat (n + 32) else c.

Fixpoint toLowerCase (s : string) : string :=
  match s with
  | EmptyString => EmptyString
  | String c r => String (lowerChar c) (toLowerCase r)
  end.

Fixpoint removeColons (s : string) : string :=
  match s with
  | EmptyString => EmptyString
  | String c r =>
      if Ascii.eqb c ":"%char then removeColons r
      else String c (removeColons r)
  end.

Definition findCrownstone (self : nat) : prog advertisement :=
  d <- this self ;;
  let uuid := removeColons (toLowerCase (data_address d)) in
  homeyAdvertisement <-
    catch (await (BleFind uuid 10000)) (fun _ => Ret AdvUndefined) ;;
  if truthy homeyAdvertisement then Ret homeyAdvertisement
  else Ret AdvNull.

Definition switchBLE (self : nat) (value : bool) : prog unit :=
  setThis self (set_state 0) ;;
  (if value then setThis self (set_state 1) else Ret tt) ;;
  catch (getKeys self) (fun _ => Ret tt) ;;
  homeyAdvertisement <- findCrownstone self ;;
  await (BleConnect self homeyAdvertisement) ;;
  d <- this self ;;
  await (BleSetSwitchState self (state d)) ;;
  await (BleControlDisconnect self) ;;
  await (BleDisconnect self).

Definition onCapabilityOnoff (self : nat) (value : bool) : prog unit :=
  busy <- gets activeConnection ;;
  loggedIn <- gets loginState ;;
  if negb busy && loggedIn then
    modify (set_activeConnection true) ;;
    catch (switchCloud self value)
          (fun _ => catch (switchBLE self value) (fun _ => Ret tt)) ;;
    d <- this self ;;
    (if includes "dim" (capabilities d) then
       if value then await (SetCapabilityValue self "dim" (CapNum 1))
       else await (SetCapabilityValue self "dim" (CapNum 0))
     else Ret tt) ;;
    modify (set_activeConnection false)
  else Ret tt.

(** *** The event loop of the driver *)

(** The platform calls the two capability listeners; the application's
    login state changes when the user logs in or out. *)
Inductive request : Type :=
| OnOff (self : nat) (value : bool)
| Dim (self : nat) (value : float)
| LoginState (loggedIn : bool).

Definition handler (r : request) : prog unit :=
  match r with
  | OnOff self value => onCapabilityOnoff self value
  | Dim self value => onCapabilityDim self value
  | LoginState b => modify (set_loginState b)
  end.

Definition config : Type := config World call resp request.
Definition event : Type := event call resp request.
Definition environment : Type := environment call resp.

(** *** Notions used to state the properties *)

Definition task : Type := task World call resp.

(** An environment in which every call resolves. *)
Definition resolves (env : environment) : Prop :=
  forall n c, exists x, env n c = Resolved x.

(** The calls of key retrieval, of the radio attempt and of the cloud
    attempt of a switch command. *)
Definition isKeyCall (c : call) : bool :=
  match c with AppGetSphereId | CloudSphereKeys _ => true | _ => false end.

Definition isRadioCall (c : call) : bool :=
  match c with
  | BleFind _ _ | BleConnect _ _ | BleSetSwitchState _ _
  | BleControlDisconnect _ | BleDisconnect _ => true
  | _ => false
  end.


Definition radioResolves (env : environment) : Prop :=
  forall n c, isRadioCall c = true -> exists x, env n c = Resolved x.

Definition uuidOf (d : CrownstoneDevice) : string :=
  removeColons (toLowerCase (data_address d)).

(** The stages of one radio attempt, in order: discovery by address
    bounded by 10000 ms, connect, switch command, the two disconnects. *)
Definition radioAttempt (self : nat) (d : CrownstoneDevice)
           (adv : advertisement) (value : bool) : list call :=
  [BleFind (uuidOf d) 10000; BleConnect self adv;
   BleSetSwitchState self (if value then 1 else 0)%Z;
   BleControlDisconnect self; BleDisconnect self].

Definition cloudAttempt (d : CrownstoneDevice) (value : bool) : call :=
  if value then CloudTurnOn (data_id d) else CloudTurnOff (data_id d).


(** Discovery found nothing: the promise was rejected (time-out) or
    resolved with nothing. *)
Definition notFound (o : outcome advertisement) : Prop :=
  match o with Resolved a => truthy a = false | Rejected _ => True end.

(** What [findCrownstone] returns for an outcome of the discovery. *)
Definition discovered (o : outcome advertisement) : advertisement :=
  match o with
  | Resolved (AdvFound p) => AdvFound p
  | _ => AdvNull
  end.

(** The key of the last entry of a given type, or the previous value of
    the field if the list has no entry of that type. *)
Definition pick (ty : string) (keys : list SphereKey) (previous : jsval)
  : jsval :=
  match find (fun k => String.eqb (keyType k) ty) (rev keys) with
  | Some k => key k
  | None => previous
  end.


(** Two worlds that agree on the flags, and on the data, capabilities and
    availability of every device. *)
Definition sameDriverData (w w' : World) : Prop :=
  activeConnection w' = activeConnection w /\
  activeConnectionDim w' = activeConnectionDim w /\
  loginState w' = loginState w /\
  forall n,
    data_id (devices w' n) = data_id (devices w n) /\
    data_address (devices w' n) = data_address (devices w n) /\
    capabilities (devices w' n) = capabilities (devices w n) /\
    available (devices w' n) = available (devices w n).

(** The code of [onCapabilityOnoff] between taking and returning the
    token. *)
Definition switchAttempt (self : nat) (value : bool) : prog unit :=
  catch (switchCloud self value)
        (fun _ => catch (switchBLE self value) (fun _ => Ret tt)).

Definition afterSwitch (self : nat) (value : bool) : prog unit :=
  d <- this self ;;
  (if includes "dim" (capabilities d) then
     if value then await (SetCapabilityValue self "dim" (CapNum 1))
     else await (SetCapabilityValue self "dim" (CapNum 0))
   else Ret tt) ;;
  modify (set_activeConnection false).

Definition isOnOff (r : request) : bool :=
  match r with OnOff _ _ => true | _ => false end.

Definition isDim (r : request) : bool :=
  match r with Dim _ _ => true | _ => false end.

(** The number of suspended commands of a class. *)
Definition countOf (class : request -> bool) (p : list (request * task))
  : nat :=
  List.length (filter (fun rt => class (fst rt)) p).

(** Code that never writes [activeConnection] and fires no detached
    call. *)
Inductive neutral {A} : prog A -> Prop :=
| neutral_ret a : neutral (Ret a)
| neutral_throw e : neutral (Throw e)
| neutral_get k : (forall w, neutral (k w)) -> neutral (Get k)
| neutral_modify f k :
    (forall w, activeConnection (f w) = activeConnection w) ->
    neutral k -> neutral (Modify f k)
| neutral_await c k : (forall o, neutral (k o)) -> neutral (Await c k)
| neutral_yield k : neutral k -> neutral (Yield k).

(** Code that runs to its end without being suspended. *)
Inductive straight : prog unit -> Prop :=
| straight_ret a : straight (Ret a)
| straight_throw e : straight (Throw e)
| straight_get k : (forall w, straight (k w)) -> straight (Get k)
| straight_modify f k : straight k -> straight (Modify f k).

(** Code of a switch command that holds the token: once it has written
    [activeConnection] it is not suspended any more. *)
Inductive holding : prog unit -> Prop :=
| holding_ret a : holding (Ret a)
| holding_throw e : holding (Throw e)
| holding_get k : (forall w, holding (k w)) -> holding (Get k)
| holding_keep f k :
    (forall w, activeConnection (f w) = activeConnection w) ->
    holding k -> holding (Modify f k)
| holding_release f k : straight k -> holding (Modify f k)
| holding_await c k : (forall o, holding (k o)) -> holding (Await c k)
| holding_yield k : holding k -> holding (Yield k).

Definition neutralTask (t : task) : Prop :=
  match t with
  | Waiting c k => forall o, neutral (k o)
  | Yielded k => neutral k
  | Detached _ => True
  end.

Definition holdingTask (t : task) : Prop :=
  match t with
  | Waiting c k => forall o, holding (k o)
  | Yielded k => holding k
  | Detached _ => False
  end.

(** The invariant of the event loop: at most one switch command is
    suspended, and while one is, [activeConnection] is true. *)
Definition poolInvariant (p : list (request * task)) (busy : bool) : Prop :=
  (forall r t, In (r, t) p ->
               if isOnOff r then holdingTask t else neutralTask t) /\
  countOf isOnOff p <= 1 /\
  (countOf isOnOff p = 1 -> busy = true).

Definition invariant (cfg : config) : Prop :=
  poolInvariant (pool cfg) (activeConnection (cworld cfg)).

(** Replace the value of [activeConnectionDim] in a configuration. *)
Definition withDimFlag (b : bool) (cfg : config) : config :=
  mkConfig (set_activeConnectionDim b (cworld cfg)) (ctrace cfg) (pool cfg)
           (uncaught cfg).

(** *** A sample installation *)

Definition plug : CrownstoneDevice :=
  mkDevice "cs1" "AA:BB:0C:1d" false true true ["onoff"; "dim"] 0
           JUndefined JUndefined JUndefined (mkSettings JNull JNull JNull).

Definition home : World := mkWorld false false true (fun _ => plug).

Definition sphereKeys : list SphereKey :=
  [mkSphereKey "ADMIN_KEY" (JStr "a1"); mkSphereKey "MEMBER_KEY" (JStr "m1");
   mkSphereKey "BASIC_KEY" (JStr "b1"); mkSphereKey "ADMIN_KEY" (JStr "a2")].

(** Every call resolves. *)
Definition allFine (c : call) : outcome (resp c) :=
  match c with
  | AppGetSphereId => Resolved (JStr "sphere1")
  | CloudSphereKeys _ => Resolved sphereKeys
  | BleFind _ _ => Resolved (AdvFound "plug")
  | _ => Resolved tt
  end.

(** The cloud rejects switch commands; everything else resolves. *)
Definition cloudDown (c : call) : outcome (resp c) :=
  match c with
  | CloudTurnOn _ => Rejected "offline"
  | CloudTurnOff _ => Rejected "offline"
  | c => allFine c
  end.

(** The cloud is down, the plug is out of radio range and the radio
    library rejects a connect without advertisement. *)
Definition outOfRange (c : call) : outcome (resp c) :=
  match c with
  | BleFind _ _ => Rejected "timeout"
  | BleConnect _ _ => Rejected "no advertisement"
  | c => cloudDown c
  end.

(** Two dim requests, the second one issued while the first is
    outstanding, then the four calls they made resolve. *)
Definition overlappingDims : list event :=
  [Request (Dim 0 0.5%float); Request (Dim 0 0.75%float);
   Settle 0 allFine; Settle 0 allFine; Settle 0 allFine; Settle 0 allFine].

(** Two switch requests, the second one issued while the first is
    outstanding, then the calls of the first resolve. *)
Definition overlappingSwitches : list event :=
  [Request (OnOff 0 true); Request (OnOff 0 false);
   Settle 0 allFine; Settle 0 allFine].

End Device.

(** ** The flow-card application *)

Module App.

(** A room as the flow cards see it: the [rooms] argument of a card and
    the [state] a trigger is fired with. *)
Record Room : Type := mkRoom {
  name : jsval;
  id : jsval
}.

(** The answer of [userReference.currentLocation()]. *)
Record InLocation : Type := mkInLocation {
  locationName : jsval;
  locationId : jsval
}.

(** [inLocation] is [None] when the property is absent, in which case
    reading [inLocation.locationName] throws. *)
Record InSphere : Type := mkInSphere {
  inSphere_sphereId : jsval;
  inLocation : option InLocation
}.

Record UserLocation : Type := mkUserLocation {
  inSpheres : list InSphere
}.

(** The module-level variables. *)
Record World : Type := mkWorld {
  sphereId : jsval;
  inLocationName : jsval;
  inLocationId : jsval
}.

Definition set_sphereId (v : jsval) (w : World) :=
  mkWorld v (inLocationName w) (inLocationId w).
Definition set_inLocationName (v : jsval) (w : World) :=
  mkWorld (sphereId w) v (inLocationId w).
Definition set_inLocationId (v : jsval) (w : World) :=
  mkWorld (sphereId w) (inLocationName w) v.

(** An event of the push stream. *)
Record PushEvent : Type := mkPushEvent {
  type : string;
  subType : string;
  location : Room
}.

Inductive call : Type :=
| CloudMe
| CurrentLocation
| CloudSpheres
| Trigger (state : Room).

Definition resp (c : call) : Type :=
  match c with
  | CurrentLocation => list UserLocation
  | CloudSpheres => list string
  | _ => unit
  end.

(** The cloud and the flow manager do not touch the variables of the
    module. *)
Definition effect (c : call) (_ : outcome (resp c)) (w : World) : World := w.

Definition prog : Type -> Type := prog World call resp.
Definition await (c : call) : prog (resp c) := await c.
Definition fire (c : call) : prog unit := fire c.
Definition environment : Type := environment call resp.

(** [await v] on a value that is not a promise: the function is suspended
    and resumed, no call is made. *)
Definition yield : prog unit := Yield (Ret tt).

(** The run listener of the trigger card [user_enters_room]. *)
Definition triggerRunListener (rooms state : Room) : bool :=
  strictEq (name rooms) (name state) && strictEq (id rooms) (id state).

Definition eventHandler (data : PushEvent) : prog unit :=
  if String.eqb (type data) "presence"
     && String.eqb (subType data) "enterLocation"
  then
    let state := mkRoom (name (location data)) (id (location data)) in
    fire (Trigger state)
  else Ret tt.

Definition getCurrentLocation (callback : prog unit) : prog unit :=
  _ <- await CloudMe ;;
  userLocation <- await CurrentLocation ;;
  if Nat.ltb 0 (List.length userLocation) then
    spheres <- await CloudSpheres ;;
    if Nat.ltb 0 (List.length spheres) then
      match userLocation with
      | [] => Throw "TypeError"
      | first :: _ =>
          match inSpheres first with
          | [] => Throw "TypeError"
          | inSphere :: _ =>
              modify (set_sphereId (inSphere_sphereId inSphere)) ;;
              match inLocation inSphere with
              | None => Throw "TypeError"
              | Some l =>
                  yield ;;
                  modify (set_inLocationName (locationName l)) ;;
                  yield ;;
                  modify (set_inLocationId (locationId l)) ;;
                  callback
              end
          end
      end
    else Ret tt
  else Ret tt.

(** The run listener of the condition card [user_presence]. *)
Definition conditionRunListener (rooms : Room) : prog bool :=
  catch (getCurrentLocation (Ret tt)) (fun _ => Ret tt) ;;
  locId <- gets inLocationId ;;
  locName <- gets inLocationName ;;
  if isDefined locId && isDefined locName then
    Ret (strictEq (id rooms) locId && strictEq (name rooms) locName)
  else Ret false.

(** The flow manager of the platform: for every firing of the trigger
    card it calls the run listener once for each flow that uses the card,
    with the room configured in that flow, and starts the flows for which
    the listener answers true. *)
Definition flowsStarted (flows : list Room) (calls : list call)
  : list Room :=
  flat_map (fun c => match c with
                     | Trigger state =>
                         filter (fun rooms => triggerRunListener rooms state)
                                flows
                     | _ => []
                     end) calls.

(** *** A sample sphere *)

Definition kitchen : Room := mkRoom (JStr "Kitchen") (JStr "A").
Definition hall : Room := mkRoom (JStr "Hall") (JStr "B").

Definition nowhere : World := mkWorld JUndefined JUndefined JUndefined.

(** The cloud locates the user in the kitchen. *)
Definition inKitchen (c : call) : outcome (resp c) :=
  match c with
  | CurrentLocation =>
      Resolved [mkUserLocation
                  [mkInSphere (JStr "sphere1")
                              (Some (mkInLocation (JStr "Kitchen")
                                                  (JStr "A")))]]
  | CloudSpheres => Resolved ["sphere1"]
  | _ => Resolved tt
  end.

Definition enterKitchen : PushEvent :=
  mkPushEvent "presence" "enterLocation" kitchen.

End App.

(** ** The TypeScript application *)

Module AppTs.

Section Caches.
(** The two caches and the projection of one into the other live in
    files that are not among the sources ([source/slowCache],
    [source/fastCache], [source/mapper]); their contents are left
    abstract. *)
Variable SlowCache : Type.
Variable FastCache : Type.
Variable mapAll : SlowCache -> FastCache.

Record World : Type := mkWorld {
  loggedIn : bool;
  settings_email : jsval;
  settings_password : jsval;
  slowCache : SlowCache;
  fastCache : FastCache
}.

Definition set_loggedIn (b : bool) (w : World) :=
  mkWorld b (settings_email w) (settings_password w) (slowCache w)
          (fastCache w).
Definition set_email (v : jsval) (w : World) :=
  mkWorld (loggedIn w) v (settings_password w) (slowCache w)
          (fastCache w).
Definition set_password (v : jsval) (w : World) :=
  mkWorld (loggedIn w) (settings_email w) v (slowCache w) (fastCache w).
Definition set_slowCache (c : SlowCache) (w : World) :=
  mkWorld (loggedIn w) (settings_email w) (settings_password w) c
          (fastCache w).
Definition set_fastCache (c : FastCache) (w : World) :=
  mkWorld (loggedIn w) (settings_email w) (settings_password w)
          (slowCache w) c.

Inductive call : Type :=
| MirrorLogin (email password : jsval)
| ServerEventsLogin (email password : jsval)
| MirrorGetAll
| MapperMapAll
| UpdateDevices
| MoveUser (user location : jsval).

Definition resp (c : call) : Type :=
  match c with
  | MirrorGetAll => SlowCache
  | _ => unit
  end.

(** Modelled from the spec: [Mirror.getAll] and [Mapper.mapAll] are not
    among the sources.  [getAll()] replaces the contents of the raw
    cache with the snapshot it fetched; [mapAll()] projects the raw
    cache into the fast cache; [login] modifies no cache. *)
Definition effect (c : call) : outcome (resp c) -> World -> World :=
  match c with
  | MirrorGetAll => fun o w =>
      match o with
      | Resolved snapshot => set_slowCache snapshot w
      | Rejected _ => w
      end
  | MapperMapAll => fun o w =>
      match o with
      | Resolved _ => set_fastCache (mapAll (slowCache w)) w
      | Rejected _ => w
      end
  | _ => fun _ w => w
  end.

Definition prog : Type -> Type := prog World call resp.
Definition await (c : call) : prog (resp c) := await c.
Definition fire (c : call) : prog unit := fire c.
Definition environment : Type := environment call resp.

(** [try { p } catch (e) { ... }]: what the [try] block ended with. *)
Definition try {A} (p : prog A) : prog (result A) :=
  catch (x <- p ;; Ret (Val x)) (fun e => Ret (Exn e)).

(** [!v] on a setting. *)
Definition falsy (v : jsval) : bool :=
  match v with
  | JUndefined | JNull => true
  | JStr s => String.eqb s ""
  end.

Definition setupConnections (email password : jsval) : prog unit :=
  modify (set_loggedIn false) ;;
  r <- try (await (MirrorLogin email password)) ;;
  match r with
  | Exn _ => Ret tt
  | Val _ =>
      r <- try (await (ServerEventsLogin email password)) ;;
      match r with
      | Exn _ => Ret tt
      | Val _ => modify (set_loggedIn true)
      end
  end.

Definition synchronizeCloud : prog unit :=
  email <- gets settings_email ;;
  password <- gets settings_password ;;
  r <- try (setupConnections email password) ;;
  match r with
  | Exn _ => Ret tt
  | Val _ =>
      await MirrorGetAll ;;
      await MapperMapAll ;;
      fire UpdateDevices
  end.

Definition setSettings (email password : jsval) : prog bool :=
  if falsy email then Ret false
  else if falsy password then Ret false
  else
    r <- try (setupConnections email password) ;;
    match r with
    | Exn _ => Ret false
    | Val _ =>
        modify (set_email email) ;;
        modify (set_password password) ;;
        gets loggedIn
    end.

Definition containsAccountSettings : prog bool :=
  email <- gets settings_email ;;
  if falsy email then Ret false
  else
    password <- gets settings_password ;;
    if falsy password then Ret false else Ret true.

Definition runLocationTrigger (user location : jsval) (enterEvent : bool)
  : prog unit :=
  if negb enterEvent then Ret tt
  else await (MoveUser user location).
End Caches.

Arguments mkWorld {SlowCache FastCache} loggedIn settings_email
          settings_password slowCache fastCache.
Arguments loggedIn {SlowCache FastCache} w.
Arguments settings_email {SlowCache FastCache} w.
Arguments settings_password {SlowCache FastCache} w.
Arguments slowCache {SlowCache FastCache} w.
Arguments fastCache {SlowCache FastCache} w.
Arguments effect {SlowCache FastCache} mapAll c _ _.
Arguments setupConnections {SlowCache FastCache} email password.
Arguments synchronizeCloud {SlowCache FastCache}.
Arguments setSettings {SlowCache FastCache} email password.
Arguments containsAccountSettings {SlowCache FastCache}.
Arguments runLocationTrigger {SlowCache FastCache} user location enterEvent.

(** *** A sample installation: the raw cache lists entity names, the fast
    cache counts them *)

Definition account : World (list string) nat :=
  mkWorld true (JStr "user@example.org") (JStr "stale") ["old sphere"] 1.

(** The cloud rejects the login; the other calls resolve. *)
Definition loginRejected (c : call) : outcome (resp (list string) c) :=
  match c with
  | MirrorLogin _ _ => Rejected "401"
  | MirrorGetAll => Resolved []
  | _ => Resolved tt
  end.

End AppTs.

(** ** Further notions of the device driver *)

Module DeviceTerms.
Import Device.






(** The cloud accepts the switch command; the platform rejects the update
    of the dim level. *)
Definition mirrorRejected (c : call) : outcome (resp c) :=
  match c with
  | SetCapabilityValue _ _ _ => Rejected "invalid capability"
  | c => allFine c
  end.

(** The platform rejects every change of availability. *)
Definition platformDown (c : call) : outcome (resp c) :=
  match c with
  | SetUnavailable _ _ => Rejected "platform"
  | SetAvailable _ => Rejected "platform"
  | c => allFine c
  end.

(** The application cannot tell the sphere. *)
Definition noSphere (c : call) : outcome (resp c) :=
  match c with
  | AppGetSphereId => Rejected "no sphere"
  | c => allFine c
  end.

(** Every call is rejected. *)
Definition allRejected (c : call) : outcome (resp c) := Rejected "down".

End DeviceTerms.

(** ** Room autocompletion of the flow cards *)

Module Rooms.

(** An element of the answer of [cloud.sphere(sphereId).locations()]; the
    cloud sends more than the two properties the cards use. *)
Record CloudLocation : Type := mkCloudLocation {
  location_name : jsval;
  location_id : jsval;
  location_icon : jsval
}.

(** The calls of the application, with the one [getRooms] adds. *)
Inductive call : Type :=
| Poll (c : App.call)
| SphereLocations (sphereId : jsval).

Definition resp (c : call) : Type :=
  match c with
  | Poll c => App.resp c
  | SphereLocations _ => list CloudLocation
  end.

Definition effect (c : call) (_ : outcome (resp c)) (w : App.World)
  : App.World := w.

Definition prog : Type -> Type := prog App.World call resp.
Definition await (c : call) : prog (resp c) := await c.
Definition environment : Type := environment call resp.

(** Code of the application run where [getRooms] runs. *)
Fixpoint lift {A} (p : App.prog A) : prog A :=
  match p with
  | Ret a => Ret a
  | Throw e => Throw e
  | Get k => Get (fun w => lift (k w))
  | Modify f k => Modify f (lift k)
  | Await c k => Await (Poll c) (fun o => lift (k o))
  | Fire c k => Fire (Poll c) (lift k)
  | Yield k => Yield (lift k)
  end.

(** A state of the application seen from [getRooms]. *)
Definition liftState (s : estate App.World App.call)
  : estate App.World call :=
  mkEstate (world s) (map Poll (trace s))
           (map (fun nc => (fst nc, Poll (snd nc))) (pending s)).

(** What the environment of [getRooms] answers to the application. *)
Definition pollEnvironment (env : environment) : App.environment :=
  fun n c => env n (Poll c).

(** The [for] loop of [listRooms], pushing onto [roomList]. *)
Fixpoint pushRooms (rooms : list CloudLocation) (roomList : list App.Room)
  : list App.Room :=
  match rooms with
  | [] => roomList
  | r :: rest =>
      pushRooms rest
                (roomList ++ [App.mkRoom (location_name r) (location_id r)])
  end.

Definition listRooms (rooms : list CloudLocation) : list App.Room :=
  pushRooms rooms [].

(** What the autocomplete listener hands to the platform. *)
Inductive answer : Type :=
| Undefined
| Null
| RoomList (rooms : list App.Room).

Definition getRooms : prog answer :=
  lift (catch (App.getCurrentLocation (Ret tt)) (fun _ => Ret tt)) ;;
  sphere <- gets App.sphereId ;;
  rooms <- await (SphereLocations sphere) ;;
  if Nat.ltb 0 (List.length rooms) then Ret (RoomList (listRooms rooms))
  else Ret Null.

(** [() => Promise.resolve(getRooms().catch((e) => { console.log(...) }))] *)
Definition autocompleteListener : prog answer :=
  catch getRooms (fun _ => Ret Undefined).

(** The room of a cloud location, as a card sees it. *)
Definition roomOf (r : CloudLocation) : App.Room :=
  App.mkRoom (location_name r) (location_id r).

(** The cloud knows two rooms of the sphere. *)
Definition twoRooms (c : call) : outcome (resp c) :=
  match c with
  | Poll c => App.inKitchen c
  | SphereLocations _ =>
      Resolved [mkCloudLocation (JStr "Kitchen") (JStr "A") (JStr "fork");
                mkCloudLocation (JStr "Hall") (JStr "B") JUndefined]
  end.

End Rooms.

(** ** Further samples of the flow-card application *)

Module AppTerms.
Import App.

(** The user was last seen in the kitchen of sphere 1. *)
Definition lastInKitchen : World :=
  mkWorld (JStr "sphere1") (JStr "Kitchen") (JStr "A").

Definition roomless : InSphere := mkInSphere (JStr "sphere2") None.

(** The cloud finds the user in sphere 2, in no room. *)
Definition inNoRoom (c : call) : outcome (resp c) :=
  match c with
  | CurrentLocation => Resolved [mkUserLocation [roomless]]
  | c => inKitchen c
  end.

End AppTerms.

(** ** Further samples of the TypeScript application *)

Module AppTsTerms.
Import AppTs.

(** Both servers accept the login and the cloud sends one sphere. *)
Definition loginAccepted (c : call) : outcome (resp (list string) c) :=
  match c with
  | MirrorGetAll => Resolved ["sphere"]
  | _ => Resolved tt
  end.

(** The login is accepted but the cloud fails to send the data. *)
Definition fetchFails (c : call) : outcome (resp (list string) c) :=
  match c with
  | MirrorGetAll => Rejected "500"
  | _ => Resolved tt
  end.

End AppTsTerms.

(** ** Logging in to the cloud and to the event server *)

Module Login.

(** What the application knows of its sessions: whether the cloud accepted
    a login, and whether the event stream is delivering events to
    [eventHandler]. *)
Record World : Type := mkWorld {
  cloudSession : bool;
  listening : bool
}.

Inductive call : Type :=
| CloudLogin (email password : jsval)
| SseStop
| SseLogin (email password : jsval)
| SseStart.

Definition resp (c : call) : Type := unit.

(** The two libraries: a login that resolves opens a session with the
    cloud, [stop] ends the delivery of events and [start] begins it.  A
    rejected call changes nothing. *)
Definition effect (c : call) (o : outcome (resp c)) (w : World) : World :=
  match o with
  | Rejected _ => w
  | Resolved _ =>
      match c with
      | CloudLogin _ _ => mkWorld true (listening w)
      | SseStop => mkWorld (cloudSession w) false
      | SseLogin _ _ => w
      | SseStart => mkWorld (cloudSession w) true
      end
  end.

Definition prog : Type -> Type := prog World call resp.
Definition await (c : call) : prog (resp c) := await c.
Definition environment : Type := environment call resp.

Definition loginToCloud (email password : jsval) : prog unit :=
  await (CloudLogin email password).

Definition loginToEventServer (email password : jsval) : prog unit :=
  await SseStop ;;
  await (SseLogin email password) ;;
  await SseStart.

(** The event server rejects the credentials. *)
Definition wrongPassword (c : call) : outcome (resp c) :=
  match c with
  | SseLogin _ _ => Rejected "401"
  | _ => Resolved tt
  end.

End Login.

(** * Properties *)

Lemma strictEq_eq a b : strictEq a b = true <-> a = b.
Proof.
  destruct a, b; simpl; split; intros H; try congruence; try reflexivity.
  - apply String.eqb_eq in H. now subst.
  - inversion H. apply String.eqb_refl.
Qed.

(** ** Running a program built with [bind] and [catch] *)

Section AsyncFacts.
Variable W : Type.
Variable call : Type.
Variable resp : call -> Type.
Variable effect : forall c : call, outcome (resp c) -> W -> W.

Lemma exec_bind {A B} (p : prog W call resp A) (f : A -> prog W call resp B)
      env s :
  exec effect (bind p f) env s =
  match snd (exec effect p env s) with
  | Val a => exec effect (f a) env (fst (exec effect p env s))
  | Exn e => (fst (exec effect p env s), Exn e)
  end.
Proof.
  revert s.
  induction p as [a|e|k IH|g k IH|c k IH|c k IH|k IH]; intros s; simpl;
    auto.
Qed.

Lemma exec_catch {A} (p : prog W call resp A) (h : error -> prog W call resp A)
      env s :
  exec effect (catch p h) env s =
  match snd (exec effect p env s) with
  | Val a => (fst (exec effect p env s), Val a)
  | Exn e => exec effect (h e) env (fst (exec effect p env s))
  end.
Proof.
  revert s.
  induction p as [a|e|k IH|g k IH|c k IH|c k IH|k IH]; intros s; simpl;
    auto.
Qed.

(** A run only ever appends to the list of calls made so far. *)
Lemma exec_trace_extends {A} (p : prog W call resp A) env s :
  exists more, trace (fst (exec effect p env s)) = trace s ++ more.
Proof.
  revert s.
  induction p as [a|e|k IH|g k IH|c k IH|c k IH|k IH]; intros s; simpl.
  - exists []. now rewrite app_nil_r.
  - exists []. now rewrite app_nil_r.
  - apply IH.
  - destruct (IH (mkEstate (g (world s)) (trace s) (pending s))) as [m Hm].
    exists m. exact Hm.
  - destruct (IH (env (List.length (trace s)) c)
                 (mkEstate (effect c (env (List.length (trace s)) c) (world s))
                           (trace s ++ [c]) (pending s))) as [m Hm].
    exists (c :: m). rewrite Hm. simpl. now rewrite <- app_assoc.
  - destruct (IH (mkEstate (world s) (trace s ++ [c])
                           (pending s ++ [(List.length (trace s), c)])))
      as [m Hm].
    exists (c :: m). rewrite Hm. simpl. now rewrite <- app_assoc.
  - apply IH.
Qed.

Lemma reachable_steps {request} (handler : request -> prog W call resp unit)
      w evs cfg :
  reachable effect handler w cfg ->
  reachable effect handler w (steps effect handler cfg evs).
Proof.
  revert cfg. induction evs as [|ev evs IH]; intros cfg H; simpl.
  - exact H.
  - apply IH. now constructor.
Qed.
End AsyncFacts.

Arguments exec_bind {W call resp} effect {A B} p f env s.
Arguments exec_catch {W call resp} effect {A} p h env s.
Arguments exec_trace_extends {W call resp} effect {A} p env s.

(** ** Binary64 order facts used by the dim handler *)

Lemma Prim2SF_100 : Prim2SF 100 = S754_finite false 7036874417766400 (-46).
Proof. reflexivity. Qed.

Lemma Prim2SF_10 : Prim2SF 10 = S754_finite false 5629499534213120 (-49).
Proof. reflexivity. Qed.

Lemma Prim2SF_1 : Prim2SF 1 = S754_finite false 4503599627370496 (-52).
Proof. reflexivity. Qed.

Lemma Prim2SF_0 : Prim2SF 0 = S754_zero false.
Proof. reflexivity. Qed.

(** Two positive finite numbers with different exponents are ordered by
    their exponents. *)
Lemma SFltb_pos_exp m1 e1 m2 e2 :
  (e1 < e2)%Z ->
  SFltb (S754_finite false m1 e1) (S754_finite false m2 e2) = true /\
  SFltb (S754_finite false m2 e2) (S754_finite false m1 e1) = false.
Proof.
  intros H. unfold SFltb, SFcompare.
  destruct (Z.compare_spec e1 e2); destruct (Z.compare_spec e2 e1);
    try (exfalso; lia); split; reflexivity.
Qed.

Lemma above_100_not_below_10 p :
  (100 <? p)%float = true -> (p <? 10)%float = false.
Proof.
  rewrite !ltb_spec, Prim2SF_100, Prim2SF_10.
  destruct (Prim2SF p) as [s|s| |s m e]; try (destruct s); try reflexivity;
    try (intros H; discriminate H).
  unfold SFltb at 1. unfold SFcompare.
  destruct (Z.compare_spec (-46) e) as [E|E|E]; intros H.
  - subst e. apply (SFltb_pos_exp _ (-49) _ (-46)). lia.
  - apply (SFltb_pos_exp _ (-49) _ e). lia.
  - discriminate H.
Qed.

Lemma below_1_positive_below_10 p :
  (p <? 1)%float = true -> (0 <? p)%float = true -> (p <? 10)%float = true.
Proof.
  rewrite !ltb_spec, Prim2SF_0, Prim2SF_10, Prim2SF_1.
  destruct (Prim2SF p) as [s|s| |s m e]; try (destruct s); try reflexivity;
    try (intros H H'; discriminate H || discriminate H').
  unfold SFltb at 1. unfold SFcompare.
  destruct (Z.compare_spec e (-52)) as [E|E|E]; intros H _.
  - subst e. apply (SFltb_pos_exp _ (-52) _ (-49)). lia.
  - apply (SFltb_pos_exp _ e _ (-49)). lia.
  - discriminate H.
Qed.

(** ** The device driver *)

Module DeviceSpec.
Import Device.

(** Settle the calls met while a handler is run symbolically. *)
Ltac settle_calls :=
  repeat (simpl;
          match goal with
          | |- context [match ?env ?n ?c with
                        | Resolved _ => _
                        | Rejected _ => _
                        end] =>
              destruct (env n c)
          end); simpl.

(** *** Dimming *)

Lemma percentage_clamped value :
  (0 <? value * 100)%float = true -> (value * 100 <? 10)%float = true ->
  percentage value = 10%float.
Proof. intros H1 H2. unfold percentage. now rewrite H1, H2. Qed.

Lemma percentage_unclamped value :
  (0 <? value * 100)%float && (value * 100 <? 10)%float = false ->
  percentage value = (value * 100)%float.
Proof. intros H. unfold percentage. now rewrite H. Qed.

Lemma percentage_below_1_not_positive value :
  (percentage value <? 1)%float = true -> (0 <? percentage value)%float = false.
Proof.
  unfold percentage.
  destruct ((0 <? value * 100)%float && (value * 100 <? 10)%float) eqn:G.
  - intros H. discriminate H.
  - intros H. destruct (0 <? value * 100)%float eqn:P; [|reflexivity].
    simpl in G. rewrite (below_1_positive_below_10 _ H P) in G. discriminate G.
Qed.

(** C3. A dispatched dim request converts the fraction to [value * 100];
    a percentage strictly between 0 and 10 becomes 10, a percentage of
    exactly 10 and a percentage above 100 are left as they are.  A
    percentage above 0 sets the on-state to true and a percentage below 1
    sets it to false, in both cases before the percentage is sent to the
    cloud (and the percentage is only sent once that update has resolved).
    On the test vector: 0 gives 0 and off, 0.05 gives 10 and on, 0.5 gives 50
    and on, 1 gives 100 and on. *)
Theorem dim_percentage_and_onoff :
  forall (w : World) (self : nat) (value : float) (env : environment),
    activeConnection w = false -> loginState w = true ->
    let raw := (value * 100)%float in
    let p := percentage value in
    let sent := CloudSetSwitch (data_id (devices w self)) p in
    let tr := trace (fst (exec effect (onCapabilityDim self value) env (start w))) in
    ((0 <? raw)%float = true -> (raw <? 10)%float = true -> p = 10%float) /\
    (raw = 10%float -> p = 10%float) /\
    ((100 <? raw)%float = true -> p = raw) /\
    ((0 <? p)%float = true ->
     tr = SetCapabilityValue self "onoff" (CapBool true)
          :: match env 0 (SetCapabilityValue self "onoff" (CapBool true)) with
             | Resolved _ => [sent]
             | Rejected _ => []
             end) /\
    ((p <? 1)%float = true ->
     tr = SetCapabilityValue self "onoff" (CapBool false)
          :: match env 0 (SetCapabilityValue self "onoff" (CapBool false)) with
             | Resolved _ => [sent]
             | Rejected _ => []
             end) /\
    (percentage 0 = 0 /\ (0 <? percentage 0) = false /\ (percentage 0 <? 1) = true)%float /\
    (percentage 0x1.999999999999ap-5 = 10 /\ (0 <? percentage 0x1.999999999999ap-5) = true)%float /\
    (percentage 0.5 = 50 /\ (0 <? percentage 0.5) = true)%float /\
    (percentage 1 = 100 /\ (0 <? percentage 1) = true)%float.
Proof.
  intros w self value env Hbusy Hlogin. cbv zeta.
  repeat split; try reflexivity.
  - apply percentage_clamped.
  - intros H. unfold percentage. rewrite H. reflexivity.
  - intros H. apply percentage_unclamped.
    rewrite (above_100_not_below_10 _ H). apply andb_false_r.
  - intros H. unfold onCapabilityDim. simpl. rewrite Hbusy, Hlogin. simpl.
    rewrite H. settle_calls; reflexivity.
  - intros H. unfold onCapabilityDim. simpl. rewrite Hbusy, Hlogin. simpl.
    rewrite (percentage_below_1_not_positive _ H), H.
    settle_calls; reflexivity.
Qed.

Lemma dim_percentage_and_onoff_witness :
  activeConnection home = false /\ loginState home = true /\
  trace (fst (exec effect (onCapabilityDim 0 0.5) (fun _ => allFine)
                   (start home)))
  = [SetCapabilityValue 0 "onoff" (CapBool true); CloudSetSwitch "cs1" 50].
Proof.
  split; [reflexivity|split; [reflexivity|]].
  destruct (dim_percentage_and_onoff home 0 0.5%float (fun _ => allFine)
                                     eq_refl eq_refl)
    as (_ & _ & _ & H & _).
  exact (H eq_refl).
Defined.

(** *** Lock state and dim capability *)

Lemma includes_added cap caps : includes cap (caps ++ [cap]) = true.
Proof.
  unfold includes. rewrite existsb_app. simpl.
  rewrite String.eqb_refl. now rewrite orb_true_r.
Qed.

Lemma includes_removed cap caps :
  includes cap (filter (fun x => negb (String.eqb cap x)) caps) = false.
Proof.
  unfold includes. induction caps as [|c caps IH]; simpl; [reflexivity|].
  destruct (String.eqb cap c) eqn:E; simpl; [exact IH|].
  now rewrite E, IH.
Qed.

(** C8. Reconciling is idempotent: once [changeLockState] (or
    [changeDimCapability]) has been applied with some value and its platform
    call has resolved, applying it again with the same value makes no call
    and leaves the state of the driver (availability, stored flags,
    capabilities of every device) exactly as it was. *)
Theorem reconcile_twice_is_once :
  forall (w : World) (self : nat) (state : bool) (env env' : environment),
    resolves env ->
    let locked := world (fst (complete effect (changeLockState self state) env w)) in
    let dimmed := world (fst (complete effect (changeDimCapability self state) env w)) in
    complete effect (changeLockState self state) env' locked
      = (start locked, Val tt) /\
    complete effect (changeDimCapability self state) env' dimmed
      = (start dimmed, Val tt).
Proof.
  intros w self state env env' Hok. cbv zeta. split.
  - unfold complete, changeLockState. simpl.
    destruct state, (available (devices w self)) eqn:Av; simpl.
    + destruct (Hok 0 (SetUnavailable self "This device is locked.")) as [x ->].
      simpl. rewrite Nat.eqb_refl. simpl. reflexivity.
    + rewrite Av. reflexivity.
    + rewrite Av. reflexivity.
    + destruct (Hok 0 (SetAvailable self)) as [x ->].
      simpl. rewrite Nat.eqb_refl. simpl. reflexivity.
  - unfold complete, changeDimCapability. simpl.
    destruct state, (includes "dim" (capabilities (devices w self))) eqn:In; simpl.
    + rewrite In. reflexivity.
    + destruct (Hok 0 (AddCapability self "dim")) as [x ->].
      simpl. rewrite !Nat.eqb_refl. simpl.
      rewrite (includes_added "dim"). reflexivity.
    + destruct (Hok 0 (RemoveCapability self "dim")) as [x ->].
      simpl. rewrite !Nat.eqb_refl. simpl.
      rewrite (includes_removed "dim"). reflexivity.
    + rewrite In. reflexivity.
Qed.

Lemma reconcile_twice_is_once_witness :
  resolves (fun _ => allFine) /\
  complete effect (changeLockState 0 true) (fun _ => cloudDown)
           (world (fst (complete effect (changeLockState 0 true)
                                 (fun _ => allFine) home)))
  = (start (world (fst (complete effect (changeLockState 0 true)
                                 (fun _ => allFine) home))), Val tt).
Proof.
  assert (H : resolves (fun _ => allFine)).
  { intros n c. destruct c; simpl; eexists; reflexivity. }
  split; [exact H|].
  exact (proj1 (reconcile_twice_is_once home 0 true (fun _ => allFine)
                                        (fun _ => cloudDown) H)).
Defined.

(** *** The key cache *)

Lemma find_snoc {X} (f : X -> bool) l x :
  find f (l ++ [x]) =
  match find f l with Some y => Some y | None => if f x then Some x else None end.
Proof.
  induction l as [|a l IH]; simpl; [reflexivity|].
  destruct (f a); [reflexivity|exact IH].
Qed.

Lemma pick_cons ty k rest previous :
  pick ty (k :: rest) previous =
  pick ty rest (if String.eqb (keyType k) ty then key k else previous).
Proof.
  unfold pick. simpl. rewrite find_snoc.
  destruct (find _ (rev rest)); [reflexivity|].
  destruct (String.eqb (keyType k) ty); reflexivity.
Qed.

Lemma storeKeys_partition keys : forall d,
  storeKeys keys d =
  mkDevice (data_id d) (data_address d) (data_locked d) (data_dimmed d)
           (available d) (capabilities d) (state d)
           (pick "ADMIN_KEY" keys (adminKey d))
           (pick "MEMBER_KEY" keys (memberKey d))
           (pick "BASIC_KEY" keys (basicKey d))
           (settings d).
Proof.
  induction keys as [|k rest IH]; intros d.
  - destruct d; reflexivity.
  - simpl storeKeys. rewrite IH, !pick_cons.
    destruct (String.eqb (keyType k) "ADMIN_KEY") eqn:A.
    + apply String.eqb_eq in A. rewrite A. reflexivity.
    + destruct (String.eqb (keyType k) "MEMBER_KEY") eqn:M.
      * apply String.eqb_eq in M. rewrite M. reflexivity.
      * destruct (String.eqb (keyType k) "BASIC_KEY") eqn:B; reflexivity.
Qed.




(** *** The event loop: one switch command at a time *)

Lemma neutral_bind {A B} (p : prog A) (f : A -> prog B) :
  neutral p -> (forall a, neutral (f a)) -> neutral (bind p f).
Proof. intros Hp Hf. induction Hp; simpl; try constructor; auto. Qed.

Lemma neutral_catch {A} (p : prog A) (h : error -> prog A) :
  neutral p -> (forall e, neutral (h e)) -> neutral (catch p h).
Proof. intros Hp Hh. induction Hp; simpl; try constructor; auto. Qed.

Lemma holding_bind {A} (p : prog A) (f : A -> prog unit) :
  neutral p -> (forall a, holding (f a)) -> holding (bind p f).
Proof. intros Hp Hf. induction Hp; simpl; try constructor; auto. Qed.

Lemma neutral_await_call c : neutral (await c).
Proof. constructor. intros [x|e]; constructor. Qed.

Lemma neutral_this self : neutral (this self).
Proof. constructor. intros w. constructor. Qed.

Lemma neutral_setThis self f : neutral (setThis self f).
Proof. constructor; [reflexivity|constructor]. Qed.

Ltac prove_neutral :=
  repeat first
    [ apply neutral_await_call
    | apply neutral_this
    | apply neutral_setThis
    | apply neutral_bind
    | apply neutral_catch
    | intro
    | match goal with |- neutral (if ?b then _ else _) => destruct b end
    | match goal with
      | |- neutral (match ?o with Resolved _ => _ | Rejected _ => _ end) =>
          destruct o
      end
    | constructor; [reflexivity|]
    | constructor ].

Lemma neutral_switchCloud self value : neutral (switchCloud self value).
Proof. unfold switchCloud. prove_neutral. Qed.

Lemma neutral_getKeys self : neutral (getKeys self).
Proof. unfold getKeys. prove_neutral. Qed.

Lemma neutral_findCrownstone self : neutral (findCrownstone self).
Proof. unfold findCrownstone. prove_neutral. Qed.

Lemma neutral_switchBLE self value : neutral (switchBLE self value).
Proof.
  unfold switchBLE.
  repeat first [apply neutral_getKeys | apply neutral_findCrownstone
               | apply neutral_await_call | apply neutral_this
               | apply neutral_setThis | apply neutral_bind
               | apply neutral_catch | intro
               | match goal with |- neutral (if ?b then _ else _) => destruct b end
               | match goal with
                 | |- neutral (match ?o with Resolved _ => _ | Rejected _ => _ end) =>
                     destruct o
                 end
               | constructor ].
Qed.

Lemma neutral_onCapabilityDim self value : neutral (onCapabilityDim self value).
Proof. unfold onCapabilityDim, gets. prove_neutral. Qed.

Lemma holding_onoff_body self value :
  holding (switchAttempt self value ;; afterSwitch self value).
Proof.
  apply holding_bind.
  - apply neutral_catch; [apply neutral_switchCloud|].
    intros _. apply neutral_catch; [apply neutral_switchBLE|]. intros _. constructor.
  - intros _. unfold afterSwitch.
    apply holding_bind; [apply neutral_this|]. intros d.
    apply holding_bind.
    + prove_neutral.
    + intros _. apply holding_release. constructor.
Qed.

Lemma effect_keeps_activeConnection c o w :
  activeConnection (effect c o w) = activeConnection w.
Proof. destruct c; simpl; try reflexivity; destruct o; reflexivity. Qed.

Lemma run_neutral r p : neutral p -> forall cfg : config,
  activeConnection (cworld (run r p cfg)) = activeConnection (cworld cfg) /\
  (pool (run r p cfg) = pool cfg \/
   exists t, pool (run r p cfg) = pool cfg ++ [(r, t)] /\ neutralTask t).
Proof.
  induction 1 as [a|e|k Hk IH|f k Hf Hk IH|c k Hk IH|k Hk IH]; intros cfg; simpl.
  - auto.
  - auto.
  - apply IH.
  - destruct (IH (mkConfig (f (cworld cfg)) (ctrace cfg) (pool cfg) (uncaught cfg)))
      as [E P].
    simpl in E, P. rewrite Hf in E. auto.
  - split; [reflexivity|]. right. exists (Waiting c k). split; [reflexivity|exact Hk].
  - split; [reflexivity|]. right. exists (Yielded k). split; [reflexivity|exact Hk].
Qed.

Lemma run_straight r p : straight p -> forall cfg : config,
  pool (run r p cfg) = pool cfg.
Proof.
  induction 1 as [a|e|k Hk IH|f k Hk IH]; intros cfg; simpl; auto.
  now rewrite IH.
Qed.

Lemma run_holding r p : holding p -> forall cfg : config,
  pool (run r p cfg) = pool cfg \/
  exists t, pool (run r p cfg) = pool cfg ++ [(r, t)] /\ holdingTask t /\
            activeConnection (cworld (run r p cfg))
            = activeConnection (cworld cfg).
Proof.
  induction 1 as [a|e|k Hk IH|f k Hf Hk IH|f k Hk|c k Hk IH|k Hk IH];
    intros cfg; simpl.
  - auto.
  - auto.
  - apply IH.
  - destruct (IH (mkConfig (f (cworld cfg)) (ctrace cfg) (pool cfg) (uncaught cfg)))
      as [P|(t & P & T & E)]; simpl in *; [auto|].
    right. exists t. rewrite Hf in E. auto.
  - left. now rewrite run_straight.
  - right. exists (Waiting c k). repeat split. exact Hk.
  - right. exists (Yielded k). repeat split. exact Hk.
Qed.

(** What [onCapabilityOnoff] does when the platform calls it. *)
Lemma run_onCapabilityOnoff r self value (cfg : config) :
  run r (onCapabilityOnoff self value) cfg =
  if negb (activeConnection (cworld cfg)) && loginState (cworld cfg) then
    run r (switchAttempt self value ;; afterSwitch self value)
        (mkConfig (set_activeConnection true (cworld cfg)) (ctrace cfg)
                  (pool cfg) (uncaught cfg))
  else cfg.
Proof.
  unfold onCapabilityOnoff. simpl.
  destruct (negb (activeConnection (cworld cfg)) && loginState (cworld cfg));
    reflexivity.
Qed.

Lemma run_onCapabilityDim_busy r self value (cfg : config) :
  activeConnection (cworld cfg) = true ->
  run r (onCapabilityDim self value) cfg = cfg.
Proof. intros H. unfold onCapabilityDim. simpl. rewrite H. reflexivity. Qed.

Lemma run_onCapabilityOnoff_busy r self value (cfg : config) :
  activeConnection (cworld cfg) = true ->
  run r (onCapabilityOnoff self value) cfg = cfg.
Proof. intros H. rewrite run_onCapabilityOnoff, H. reflexivity. Qed.

(** Counting the tasks of a class in a pool. *)
Lemma filter_length_remove_nth {X} (p : X -> bool) i l x :
  nth_error l i = Some x ->
  List.length (filter p l) =
  List.length (filter p (remove_nth i l)) + (if p x then 1 else 0).
Proof.
  revert i. induction l as [|y l IH]; intros [|i] H; simpl in *; try discriminate.
  - inversion H. subst. unfold remove_nth. simpl.
    destruct (p x); simpl; lia.
  - unfold remove_nth in *. simpl. specialize (IH i H).
    destruct (p y), (p x); simpl in *; lia.
Qed.

Lemma In_remove_nth {X} i (l : list X) x : In x (remove_nth i l) -> In x l.
Proof.
  unfold remove_nth. intros H. apply in_app_or in H. destruct H as [H|H].
  - rewrite <- (firstn_skipn i l). apply in_or_app. now left.
  - rewrite <- (firstn_skipn (S i) l). apply in_or_app. now right.
Qed.

Lemma countOf_positive class (p : list (request * task)) r t :
  In (r, t) p -> class r = true -> 1 <= countOf class p.
Proof.
  unfold countOf. intros H C. induction p as [|x l IH].
  - destruct H.
  - destruct H as [E|H].
    + subst x. simpl. rewrite C. simpl. lia.
    + specialize (IH H). simpl. destruct (class (fst x)); simpl; lia.
Qed.

Lemma countOf_snoc class (p : list (request * task)) r t :
  countOf class (p ++ [(r, t)]) = countOf class p + (if class r then 1 else 0).
Proof.
  unfold countOf. rewrite filter_app, length_app. simpl.
  destruct (class r); reflexivity.
Qed.

Lemma invariant_init w : invariant (init w).
Proof.
  repeat split; simpl.
  - intros r t [].
  - unfold countOf. simpl. lia.
  - unfold countOf. simpl. discriminate.
Qed.

Lemma poolInvariant_idle p b b' :
  poolInvariant p b -> countOf isOnOff p = 0 -> poolInvariant p b'.
Proof. intros (T & C & F) Z. repeat split; [exact T|lia|intros H; lia]. Qed.

Lemma poolInvariant_add_neutral p b r t :
  poolInvariant p b -> isOnOff r = false -> neutralTask t ->
  poolInvariant (p ++ [(r, t)]) b.
Proof.
  intros (T & C & F) R N. rewrite <- (Nat.add_0_r (countOf isOnOff p)) in C, F.
  unfold poolInvariant. rewrite countOf_snoc, R. repeat split; try assumption.
  intros r' t' H. apply in_app_or in H. destruct H as [H|[H|[]]].
  - now apply T.
  - inversion H. subst. rewrite R. exact N.
Qed.

Lemma poolInvariant_add_holding p b r t :
  poolInvariant p b -> countOf isOnOff p = 0 -> isOnOff r = true ->
  holdingTask t -> poolInvariant (p ++ [(r, t)]) true.
Proof.
  intros (T & C & F) Z R N.
  unfold poolInvariant. rewrite countOf_snoc, R, Z. repeat split; try lia.
  intros r' t' H. apply in_app_or in H. destruct H as [H|[H|[]]].
  - now apply T.
  - inversion H. subst. rewrite R. exact N.
Qed.

Lemma poolInvariant_remove p b i r t :
  poolInvariant p b -> nth_error p i = Some (r, t) ->
  (if isOnOff r then holdingTask t /\ b = true /\
                     countOf isOnOff (remove_nth i p) = 0
   else neutralTask t) /\
  poolInvariant (remove_nth i p) b.
Proof.
  intros (T & C & F) H.
  pose proof (filter_length_remove_nth (fun rt => isOnOff (fst rt)) i p (r, t) H)
    as L.
  fold (countOf isOnOff p) in L. fold (countOf isOnOff (remove_nth i p)) in L.
  simpl in L.
  pose proof (T r t (nth_error_In p i H)) as Ht.
  split.
  - destruct (isOnOff r); [|exact Ht].
    repeat split; [exact Ht|apply F; lia|lia].
  - repeat split.
    + intros r' t' H'. apply T. eapply In_remove_nth. exact H'.
    + destruct (isOnOff r); lia.
    + intros E. apply F. destruct (isOnOff r); lia.
Qed.

Lemma invariant_after_neutral r p (cfg : config) :
  neutral p -> isOnOff r = false -> invariant cfg -> invariant (run r p cfg).
Proof.
  intros N R I. destruct (run_neutral r p N cfg) as [E [P|(t & P & T)]];
    unfold invariant; rewrite E, P.
  - exact I.
  - apply poolInvariant_add_neutral; assumption.
Qed.

Lemma invariant_after_holding r p (cfg : config) :
  holding p -> isOnOff r = true ->
  poolInvariant (pool cfg) (activeConnection (cworld cfg)) ->
  countOf isOnOff (pool cfg) = 0 ->
  activeConnection (cworld cfg) = true ->
  invariant (run r p cfg).
Proof.
  intros Hp R I Z B. destruct (run_holding r p Hp cfg) as [P|(t & P & T & E)];
    unfold invariant; rewrite P.
  - eapply poolInvariant_idle; eassumption.
  - rewrite E, B. eapply poolInvariant_add_holding; eassumption.
Qed.

Lemma invariant_step (cfg : config) (ev : event) :
  invariant cfg -> invariant (step effect handler cfg ev).
Proof.
  intros I. destruct ev as [[self value|self value|b]|i o]; unfold step, handler.
  - rewrite run_onCapabilityOnoff.
    destruct (activeConnection (cworld cfg)) eqn:B; cbn [negb andb]; [exact I|].
    destruct (loginState (cworld cfg)); [|exact I].
    assert (Z : countOf isOnOff (pool cfg) = 0).
    { destruct I as (_ & C & F). unfold invariant in *. rewrite B in F.
      destruct (countOf isOnOff (pool cfg)) as [|[|n]];
        [reflexivity|specialize (F eq_refl); discriminate F|lia]. }
    apply invariant_after_holding.
    + apply holding_onoff_body.
    + reflexivity.
    + eapply poolInvariant_idle; [exact I|exact Z].
    + exact Z.
    + reflexivity.
  - apply invariant_after_neutral; [apply neutral_onCapabilityDim|reflexivity|exact I].
  - exact I.
  - destruct (nth_error (pool cfg) i) as [[r t]|] eqn:H; [|exact I].
    destruct (poolInvariant_remove _ _ i r t I H) as [Ht Ip].
    destruct t as [c k|k|c].
    + destruct (isOnOff r) eqn:R.
      * destruct Ht as (Hk & B & Z).
        apply invariant_after_holding; cbn [cworld pool];
          rewrite ?effect_keeps_activeConnection; auto.
      * apply invariant_after_neutral; [apply Ht|exact R|].
        unfold invariant. simpl. rewrite effect_keeps_activeConnection. exact Ip.
    + destruct (isOnOff r) eqn:R.
      * destruct Ht as (Hk & B & Z).
        apply invariant_after_holding; cbn [cworld pool]; auto.
      * apply invariant_after_neutral; [apply Ht|exact R|exact Ip].
    + unfold invariant. simpl. rewrite effect_keeps_activeConnection. exact Ip.
Qed.

Lemma invariant_reachable w (cfg : config) :
  reachable effect handler w cfg -> invariant cfg.
Proof.
  induction 1 as [|cfg ev H IH]; [apply invariant_init|].
  apply invariant_step. exact IH.
Qed.

(** While a switch command is in flight, a further switch request is
    dropped: the configuration does not change at all. *)
Lemma overlapping_switch_dropped w (cfg : config) self value :
  reachable effect handler w cfg ->
  1 <= countOf isOnOff (pool cfg) ->
  step effect handler cfg (Request (OnOff self value)) = cfg.
Proof.
  intros R H. destruct (invariant_reachable w cfg R) as (_ & C & F).
  unfold step, handler. apply run_onCapabilityOnoff_busy. apply F. lia.
Qed.

(** C9. A dim request issued while a switch command is in flight is dropped
    without a trace: the guard of the dim handler reads [activeConnection].
    [activeConnectionDim] is set when a dim request is dispatched and
    cleared when the dispatch has run to its end, but no handler reads it:
    whatever its value, a request makes the same calls and leaves the same
    suspended tasks. *)
Theorem dim_guard_reads_switch_flag :
  (forall (w : World) (cfg : config) (self : nat) (value : float),
      reachable effect handler w cfg ->
      1 <= countOf isOnOff (pool cfg) ->
      step effect handler cfg (Request (Dim self value)) = cfg) /\
  (forall (cfg : config) (self : nat) (value : float) (env : environment),
      activeConnection (cworld cfg) = false ->
      loginState (cworld cfg) = true ->
      activeConnectionDim
        (cworld (step effect handler cfg (Request (Dim self value)))) = true /\
      countOf isDim (pool (step effect handler cfg (Request (Dim self value))))
      = S (countOf isDim (pool cfg)) /\
      (resolves env ->
       activeConnectionDim
         (world (fst (exec effect (onCapabilityDim self value) env
                           (start (cworld cfg))))) = false)) /\
  (forall (cfg : config) (r : request) (b : bool),
      ctrace (step effect handler (withDimFlag b cfg) (Request r))
      = ctrace (step effect handler cfg (Request r)) /\
      pool (step effect handler (withDimFlag b cfg) (Request r))
      = pool (step effect handler cfg (Request r))).
Proof.
  split; [|split].
  - intros w cfg self value R H.
    destruct (invariant_reachable w cfg R) as (_ & C & F).
    unfold step, handler. apply run_onCapabilityDim_busy. apply F. lia.
  - intros cfg self value env Hb Hl.
    unfold step, handler, onCapabilityDim. simpl. rewrite Hb, Hl. simpl.
    split; [|split].
    + destruct (0 <? percentage value)%float; [reflexivity|].
      destruct (percentage value <? 1)%float; reflexivity.
    + destruct (0 <? percentage value)%float;
        [|destruct (percentage value <? 1)%float];
        simpl; rewrite countOf_snoc; simpl; lia.
    + intros R.
      destruct (0 <? percentage value)%float;
        [|destruct (percentage value <? 1)%float]; simpl;
        repeat match goal with
               | |- context [match ?env ?n ?c with
                             | Resolved _ => _
                             | Rejected _ => _
                             end] =>
                   let x := fresh "x" in
                   let E := fresh "E" in
                   destruct (R n c) as [x E]; rewrite E; simpl
               end; reflexivity.
  - intros cfg r b. destruct r as [self value|self value|l];
      unfold step, handler, withDimFlag.
    + unfold onCapabilityOnoff. simpl.
      destruct (activeConnection (cworld cfg)), (loginState (cworld cfg));
        simpl; try (split; reflexivity).
      destruct value; split; reflexivity.
    + unfold onCapabilityDim. simpl.
      destruct (activeConnection (cworld cfg)), (loginState (cworld cfg));
        simpl; split; reflexivity.
    + split; reflexivity.
Qed.

Lemma dim_guard_reads_switch_flag_witness :
  let busy := step effect handler (init home) (Request (OnOff 0 true)) in
  1 <= countOf isOnOff (pool busy) /\
  step effect handler busy (Request (Dim 0 0.5%float)) = busy.
Proof.
  split; [apply le_n|].
  apply (proj1 dim_guard_reads_switch_flag home).
  - apply reach_step. apply reach_init.
  - apply le_n.
Defined.

(** C1, at the input where the code departs from it.  Two dim requests are
    issued, the second one while the first is outstanding: both are
    dispatched, two dim commands are in flight at once and the cloud is
    asked twice to set the dim level.  Two switch requests issued the same
    way reach the cloud once. *)
Theorem overlapping_dim_requests_both_dispatched :
  countOf isDim
    (pool (steps effect handler (init home) (firstn 2 overlappingDims))) = 2 /\
  ctrace (steps effect handler (init home) overlappingDims)
  = [SetCapabilityValue 0 "onoff" (CapBool true);
     SetCapabilityValue 0 "onoff" (CapBool true);
     CloudSetSwitch "cs1" 50; CloudSetSwitch "cs1" 75] /\
  ctrace (steps effect handler (init home) overlappingSwitches)
  = [CloudTurnOn "cs1"; SetCapabilityValue 0 "dim" (CapNum 1)].
Proof. repeat split. Qed.

(** *** The radio fallback *)

Lemma sameDriverData_refl w : sameDriverData w w.
Proof. repeat split. Qed.

Lemma sameDriverData_trans w1 w2 w3 :
  sameDriverData w1 w2 -> sameDriverData w2 w3 -> sameDriverData w1 w3.
Proof.
  intros (A & B & C & D) (A' & B' & C' & D').
  repeat split; try congruence;
    destruct (D n) as (? & ? & ? & ?), (D' n) as (? & ? & ? & ?); congruence.
Qed.

Lemma sameDriverData_update self f w :
  (forall d, data_id (f d) = data_id d /\ data_address (f d) = data_address d /\
             capabilities (f d) = capabilities d /\ available (f d) = available d) ->
  sameDriverData w (update_device self f w).
Proof.
  intros H. repeat split; simpl; destruct (Nat.eqb n self); try reflexivity; apply H.
Qed.

(** Key retrieval inside [switchBLE]: its failure is caught, it only makes
    key calls and only touches the keys of the device. *)
Lemma exec_getKeys_caught self env s :
  let r := exec effect (catch (getKeys self) (fun _ => Ret tt)) env s in
  snd r = Val tt /\
  pending (fst r) = pending s /\
  sameDriverData (world s) (world (fst r)) /\
  state (devices (world (fst r)) self) = state (devices (world s) self) /\
  exists keys, trace (fst r) = trace s ++ keys /\ forallb isKeyCall keys = true.
Proof.
  cbv zeta. unfold getKeys. simpl.
  destruct (keysObtained (settings (devices (world s) self))); simpl.
  - repeat split; try reflexivity. exists []. now rewrite app_nil_r.
  - destruct (env (List.length (trace s)) AppGetSphereId) as [sid|e]; simpl.
    + destruct (env (List.length (trace s ++ [AppGetSphereId])) (CloudSphereKeys sid))
        as [keys|e]; simpl.
      * rewrite !Nat.eqb_refl, storeKeys_partition. simpl.
        repeat split; simpl;
          try (destruct (Nat.eqb n self); simpl;
               rewrite ?storeKeys_partition; reflexivity).
        exists [AppGetSphereId; CloudSphereKeys sid].
        rewrite <- app_assoc. split; reflexivity.
      * repeat split. exists [AppGetSphereId; CloudSphereKeys sid].
        rewrite <- app_assoc. split; reflexivity.
    + repeat split. exists [AppGetSphereId]. split; reflexivity.
Qed.

Lemma exec_findCrownstone self env s :
  exec effect (findCrownstone self) env s =
  let find := BleFind (uuidOf (devices (world s) self)) 10000 in
  (mkEstate (world s) (trace s ++ [find]) (pending s),
   Val (discovered (env (List.length (trace s)) find))).
Proof.
  unfold findCrownstone, uuidOf. simpl.
  destruct (env (List.length (trace s)) _) as [[| |p]|e]; reflexivity.
Qed.

#[local] Arguments getKeys : simpl never.
#[local] Arguments findCrownstone : simpl never.

Lemma exec_switchBLE self value env s :
  let d := devices (world s) self in
  let r := exec effect (switchBLE self value) env s in
  exists keys n,
    let i := List.length (trace s ++ keys) in
    let adv := discovered (env i (BleFind (uuidOf d) 10000)) in
    trace (fst r) = trace s ++ keys ++ firstn n (radioAttempt self d adv value) /\
    forallb isKeyCall keys = true /\
    2 <= n <= 5 /\
    pending (fst r) = pending s /\
    sameDriverData (world s) (world (fst r)) /\
    (radioResolves env -> n = 5 /\ snd r = Val tt) /\
    (n < 5 -> exists e, snd r = Exn e) /\
    (forall e, env (S i) (BleConnect self adv) = Rejected e ->
               n = 2 /\ snd r = Exn e).
Proof.
  cbv zeta. unfold switchBLE.
  set (st := (if value then 1 else 0)%Z).
  set (w0 := update_device self (set_state 0) (world s)).
  set (w1 := if value then update_device self (set_state 1) w0 else w0).
  assert (Hw1 : sameDriverData (world s) w1 /\ state (devices w1 self) = st).
  { assert (H0 : sameDriverData (world s) w0)
      by (apply sameDriverData_update; intros d; repeat split).
    unfold w1, st. destruct value.
    - split.
      + eapply sameDriverData_trans; [exact H0|].
        apply sameDriverData_update. intros d. repeat split.
      + simpl. now rewrite Nat.eqb_refl.
    - split; [exact H0|]. simpl. now rewrite Nat.eqb_refl. }
  rewrite exec_bind.
  change (exec effect (setThis self (set_state 0)) env s)
    with (mkEstate w0 (trace s) (pending s), @Val unit tt).
  cbn [fst snd]. rewrite exec_bind.
  assert (E : exec effect (if value then setThis self (set_state 1) else Ret tt)
                   env (mkEstate w0 (trace s) (pending s))
              = (mkEstate w1 (trace s) (pending s), Val tt))
    by (unfold w1; destruct value; reflexivity).
  rewrite E. clear E. cbn [fst snd].
  destruct Hw1 as [Hsame1 Hst1].
  destruct (exec_getKeys_caught self env (mkEstate w1 (trace s) (pending s)))
    as (Hv & Hp & Hsame & Hst & keys & Htr & Hk).
  cbn [world trace pending] in Hp, Hsame, Hst, Htr.
  rewrite exec_bind, Hv.
  set (s2 := fst (exec effect (catch (getKeys self) (fun _ => Ret tt)) env
                       (mkEstate w1 (trace s) (pending s)))) in *.
  assert (Hsame2 : sameDriverData (world s) (world s2))
    by (eapply sameDriverData_trans; eassumption).
  rewrite exec_bind, exec_findCrownstone. simpl.
  assert (Hu : uuidOf (devices (world s2) self) = uuidOf (devices (world s) self)).
  { unfold uuidOf. destruct Hsame2 as (_ & _ & _ & H). destruct (H self) as (_ & -> & _).
    reflexivity. }
  rewrite Hu, Htr.
  set (find := BleFind (uuidOf (devices (world s) self)) 10000).
  set (adv := discovered (env (List.length (trace s ++ keys)) find)).
  exists keys.
  replace (List.length ((trace s ++ keys) ++ [find]))
    with (S (List.length (trace s ++ keys)))
    by (rewrite (length_app (trace s ++ keys)); simpl; lia).
  assert (Hfail : forall n c e, isRadioCall c = true -> env n c = Rejected e ->
                    radioResolves env -> False).
  { intros n c e Hc He R. destruct (R n c Hc) as [x Hx]. congruence. }
  destruct (env (S (List.length (trace s ++ keys))) (BleConnect self adv))
    as [x1|e1] eqn:C1; simpl.
  2:{ exists 2. simpl. rewrite <- !app_assoc. simpl.
      refine (conj eq_refl (conj Hk (conj _ (conj Hp (conj Hsame2
                (conj _ (conj _ _))))))).
      - lia.
      - intros R. exfalso. exact (Hfail _ (BleConnect self adv) _ eq_refl C1 R).
      - intros _. eexists. reflexivity.
      - intros e He. pose proof (eq_trans (eq_sym C1) He) as Hq.
        inversion Hq. split; reflexivity. }
  rewrite Hst, Hst1.
  match goal with |- context [env ?n (BleSetSwitchState self st)] =>
    destruct (env n (BleSetSwitchState self st)) as [x2|e2] eqn:C2 end; simpl.
  2:{ exists 3. simpl. rewrite <- !app_assoc. simpl.
      refine (conj eq_refl (conj Hk (conj _ (conj Hp (conj Hsame2
                (conj _ (conj _ _))))))).
      - lia.
      - intros R. exfalso. exact (Hfail _ (BleSetSwitchState self st) _ eq_refl C2 R).
      - intros _. eexists. reflexivity.
      - intros e He. pose proof (eq_trans (eq_sym C1) He) as Hq.
        discriminate Hq. }
  match goal with |- context [env ?n (BleControlDisconnect self)] =>
    destruct (env n (BleControlDisconnect self)) as [x3|e3] eqn:C3 end; simpl.
  2:{ exists 4. simpl. rewrite <- !app_assoc. simpl.
      refine (conj eq_refl (conj Hk (conj _ (conj Hp (conj Hsame2
                (conj _ (conj _ _))))))).
      - lia.
      - intros R. exfalso. exact (Hfail _ (BleControlDisconnect self) _ eq_refl C3 R).
      - intros _. eexists. reflexivity.
      - intros e He. pose proof (eq_trans (eq_sym C1) He) as Hq.
        discriminate Hq. }
  match goal with |- context [env ?n (BleDisconnect self)] =>
    destruct (env n (BleDisconnect self)) as [x4|e4] eqn:C4 end; simpl.
  2:{ exists 5. simpl. rewrite <- !app_assoc. simpl.
      refine (conj eq_refl (conj Hk (conj _ (conj Hp (conj Hsame2
                (conj _ (conj _ _))))))).
      - lia.
      - intros R. exfalso. exact (Hfail _ (BleDisconnect self) _ eq_refl C4 R).
      - intros H. lia.
      - intros e He. pose proof (eq_trans (eq_sym C1) He) as Hq.
        discriminate Hq. }
  exists 5. simpl. rewrite <- !app_assoc. simpl.
  refine (conj eq_refl (conj Hk (conj _ (conj Hp (conj Hsame2
            (conj _ (conj _ _))))))).
  - lia.
  - intros _. destruct x4. split; reflexivity.
  - intros H. lia.
  - intros e He. pose proof (eq_trans (eq_sym C1) He) as Hq.
    discriminate Hq.
Qed.

#[local] Arguments switchBLE : simpl never.
#[local] Arguments switchCloud : simpl never.

Lemma exec_switchCloud self value env s :
  let cloud := cloudAttempt (devices (world s) self) value in
  exec effect (switchCloud self value) env s =
  (mkEstate (world s) (trace s ++ [cloud]) (pending s),
   match env (List.length (trace s)) cloud with
   | Resolved _ => Val tt
   | Rejected e => Exn e
   end).
Proof.
  unfold switchCloud, cloudAttempt. destruct value; simpl;
    match goal with |- context [env ?n ?c] => destruct (env n c) as [[]|e] end;
    reflexivity.
Qed.


Lemma onCapabilityOnoff_dispatched self value env w :
  activeConnection w = false -> loginState w = true ->
  exec effect (onCapabilityOnoff self value) env (start w) =
  exec effect
       (switchAttempt self value ;; afterSwitch self value)
       env (mkEstate (set_activeConnection true w) [] []).
Proof.
  intros Hb Hl. unfold onCapabilityOnoff. simpl. rewrite Hb, Hl. reflexivity.
Qed.








Lemma discovered_notFound o : notFound o -> discovered o = AdvNull.
Proof.
  destruct o as [[| |p]|e]; simpl; intros H; try reflexivity. discriminate H.
Qed.

(** C10. When discovery finds nothing within its 10000 ms, [findCrownstone]
    returns [null]: it does not throw.  [switchBLE] does not look at what it
    got: its next call is [connect] with the null advertisement, and if that
    call is rejected the radio attempt ends there, with that error and no
    further radio call. *)
Theorem discovery_timeout_reaches_connect_with_null :
  forall (w : World) (self : nat) (value : bool) (env : environment),
    (forall n uuid timeout, notFound (env n (BleFind uuid timeout))) ->
    let d := devices w self in
    let r := exec effect (switchBLE self value) env (start w) in
    exec effect (findCrownstone self) env (start w)
    = (mkEstate w [BleFind (uuidOf d) 10000] [], Val AdvNull) /\
    exists keys n,
      trace (fst r) = keys ++ firstn n (radioAttempt self d AdvNull value) /\
      forallb isKeyCall keys = true /\
      2 <= n <= 5 /\
      (forall e,
          env (S (List.length keys)) (BleConnect self AdvNull) = Rejected e ->
          n = 2 /\ snd r = Exn e).
Proof.
  intros w self value env H. cbv zeta. split.
  - rewrite exec_findCrownstone. cbn [start world trace pending app].
    rewrite (discovered_notFound _ (H _ _ _)). reflexivity.
  - destruct (exec_switchBLE self value env (start w))
      as (keys & n & Htr & Hk & Hn & _ & _ & _ & _ & Hc).
    cbn [start world trace pending app] in Htr, Hc.
    rewrite (discovered_notFound _ (H _ _ _)) in Htr, Hc.
    exists keys, n. auto.
Qed.

Lemma discovery_timeout_reaches_connect_with_null_witness :
  (forall (n : nat) uuid timeout,
      notFound (outOfRange (BleFind uuid timeout))) /\
  exec effect (findCrownstone 0) (fun _ => outOfRange) (start home)
  = (mkEstate home [BleFind "aabb0c1d" 10000] [], Val AdvNull).
Proof.
  split; [intros; exact I|].
  exact (proj1 (discovery_timeout_reaches_connect_with_null
                  home 0 true (fun _ => outOfRange) (fun _ _ _ => I))).
Defined.

End DeviceSpec.
(** ** The flow cards *)

Module AppSpec.
Import App.

Lemma triggerRunListener_true rooms state :
  triggerRunListener rooms state = true <->
  name rooms = name state /\ id rooms = id state.
Proof.
  unfold triggerRunListener. rewrite andb_true_iff, !strictEq_eq. reflexivity.
Qed.

Lemma eventHandler_trace data env w :
  trace (fst (exec effect (eventHandler data) env (start w))) =
  if String.eqb (type data) "presence"
     && String.eqb (subType data) "enterLocation"
  then [Trigger (mkRoom (name (location data)) (id (location data)))]
  else [].
Proof.
  unfold eventHandler.
  destruct (String.eqb (type data) "presence"
            && String.eqb (subType data) "enterLocation"); reflexivity.
Qed.

(** C5. An exit event starts no flow.  An enter event starts exactly the
    flows whose configured room has both the name and the id of the room of
    the event, each of them once; a flow whose room differs in the name or
    in the id is not started. *)
Theorem presence_trigger_fires_on_matching_enter :
  forall (flows : list Room) (data : PushEvent) (w : World)
         (env : environment),
    let calls :=
      trace (fst (exec effect (eventHandler data) env (start w))) in
    (subType data = "exitLocation" -> flowsStarted flows calls = []) /\
    (type data = "presence" -> subType data = "enterLocation" ->
     flowsStarted flows calls
     = filter (fun rooms =>
                 strictEq (name rooms) (name (location data))
                 && strictEq (id rooms) (id (location data))) flows) /\
    (forall rooms : Room,
        type data = "presence" -> subType data = "enterLocation" ->
        (name rooms = name (location data) ->
         id rooms = id (location data) ->
         flowsStarted [rooms] calls = [rooms]) /\
        (name rooms <> name (location data)
         \/ id rooms <> id (location data) ->
         flowsStarted [rooms] calls = [])).
Proof.
  intros flows data w env. cbv zeta. rewrite eventHandler_trace.
  split; [|split].
  - intros E. rewrite E. rewrite andb_false_r. reflexivity.
  - intros T S. rewrite T, S. simpl. now rewrite app_nil_r.
  - intros rooms T S. rewrite T, S. simpl. rewrite app_nil_r.
    unfold triggerRunListener. cbn [name id]. split.
    + intros N I. rewrite (proj2 (strictEq_eq _ _) N).
      rewrite (proj2 (strictEq_eq _ _) I). reflexivity.
    + intros D.
      destruct (strictEq (name rooms) (name (location data))) eqn:N;
        [|reflexivity].
      destruct (strictEq (id rooms) (id (location data))) eqn:I;
        [|reflexivity].
      apply strictEq_eq in N, I. destruct D; contradiction.
Qed.

Lemma presence_trigger_fires_on_matching_enter_witness :
  type enterKitchen = "presence" /\ subType enterKitchen = "enterLocation" /\
  flowsStarted [kitchen; hall]
    (trace (fst (exec effect (eventHandler enterKitchen) (fun _ => inKitchen)
                      (start nowhere))))
  = [kitchen].
Proof.
  split; [reflexivity|split; [reflexivity|]].
  exact (proj1 (proj2 (presence_trigger_fires_on_matching_enter
                         [kitchen; hall] enterKitchen nowhere
                         (fun _ => inKitchen)))
               eq_refl eq_refl).
Defined.

(** The poll never lets an exception escape into the condition. *)
Lemma poll_caught env s :
  snd (exec effect (catch (getCurrentLocation (Ret tt)) (fun _ => Ret tt))
            env s) = Val tt.
Proof.
  rewrite exec_catch.
  destruct (snd (exec effect (getCurrentLocation (Ret tt)) env s)) as [[]|e];
    reflexivity.
Qed.

(** The answer of the condition once the poll is over. *)
Lemma condition_after_poll rooms env s :
  exec effect (conditionRunListener rooms) env s =
  let s' := fst (exec effect (catch (getCurrentLocation (Ret tt))
                                    (fun _ => Ret tt)) env s) in
  (s', Val (isDefined (inLocationId (world s'))
            && isDefined (inLocationName (world s'))
            && (strictEq (id rooms) (inLocationId (world s'))
                && strictEq (name rooms) (inLocationName (world s'))))).
Proof.
  unfold conditionRunListener. rewrite exec_bind, poll_caught. cbv zeta.
  set (s' := fst (exec effect (catch (getCurrentLocation (Ret tt))
                                     (fun _ => Ret tt)) env s)).
  simpl.
  destruct (isDefined (inLocationId (world s'))
            && isDefined (inLocationName (world s'))); reflexivity.
Qed.

(** What the poll leaves in the variables of the module. *)
Lemma poll_outcome env w :
  let s' := fst (exec effect (catch (getCurrentLocation (Ret tt))
                                    (fun _ => Ret tt)) env (start w)) in
  hd_error (trace s') = Some CloudMe /\
  (forall x u us sp sps s ss l,
      env 0 CloudMe = Resolved x ->
      env 1 CurrentLocation = Resolved (u :: us) ->
      env 2 CloudSpheres = Resolved (sp :: sps) ->
      inSpheres u = s :: ss -> inLocation s = Some l ->
      inLocationId (world s') = locationId l /\
      inLocationName (world s') = locationName l) /\
  (forall e, env 0 CloudMe = Rejected e -> world s' = w) /\
  (forall x, env 0 CloudMe = Resolved x ->
             env 1 CurrentLocation = Resolved [] -> world s' = w).
Proof.
  cbv zeta. unfold getCurrentLocation. simpl.
  destruct (env 0 CloudMe) as [x0|e0]; simpl.
  2:{ repeat split; intros; congruence. }
  destruct (env 1 CurrentLocation) as [[|u us]|e1]; simpl.
  1,3: repeat split; intros; congruence.
  destruct (env 2 CloudSpheres) as [[|sp sps]|e2]; simpl.
  1,3: repeat split; intros; congruence.
  destruct (inSpheres u) as [|s ss] eqn:E3; simpl.
  1: repeat split; intros; congruence.
  destruct (inLocation s) as [l|] eqn:E4; simpl.
  2: repeat split; intros; congruence.
  split; [reflexivity|]. split; [|split; intros; congruence].
  intros x u' us' sp' sps' s0 ss0 l0 _ H1 _ H3 H4.
  inversion H1; subst u'. rewrite E3 in H3. inversion H3; subst s0.
  rewrite E4 in H4. inversion H4; subst l0. split; reflexivity.
Qed.

(** C7. The condition first polls the cloud for the location of the user,
    whatever it already knows, and never fails.  It answers true exactly
    when the last known location is defined and has both the id and the name
    of the given room.  A successful poll makes the polled room the last
    known location; a rejected poll, or one that does not locate the user,
    leaves the last known location as it was, and the answer is false when
    no location is known. *)
Theorem presence_condition_answer :
  forall (rooms : Room) (w : World) (env : environment),
    let r := exec effect (conditionRunListener rooms) env (start w) in
    let w' := world (fst r) in
    (exists b, snd r = Val b /\
       (b = true <->
        isDefined (inLocationId w') = true /\
        isDefined (inLocationName w') = true /\
        id rooms = inLocationId w' /\ name rooms = inLocationName w')) /\
    hd_error (trace (fst r)) = Some CloudMe /\
    (forall x u us sp sps s ss l,
        env 0 CloudMe = Resolved x ->
        env 1 CurrentLocation = Resolved (u :: us) ->
        env 2 CloudSpheres = Resolved (sp :: sps) ->
        inSpheres u = s :: ss -> inLocation s = Some l ->
        inLocationId w' = locationId l /\
        inLocationName w' = locationName l) /\
    (forall e, env 0 CloudMe = Rejected e -> w' = w) /\
    (forall x, env 0 CloudMe = Resolved x ->
               env 1 CurrentLocation = Resolved [] -> w' = w) /\
    (inLocationId w' = JUndefined \/ inLocationName w' = JUndefined ->
     snd r = Val false).
Proof.
  intros rooms w env. cbv zeta. rewrite condition_after_poll. cbv zeta.
  cbn [fst snd].
  destruct (poll_outcome env w) as (Hhd & Hok & Hrej & Hnone).
  set (s' := fst (exec effect (catch (getCurrentLocation (Ret tt))
                                     (fun _ => Ret tt)) env (start w))) in *.
  split; [|split; [exact Hhd|split; [exact Hok|split; [exact Hrej|
           split; [exact Hnone|]]]]].
  - eexists. split; [reflexivity|].
    rewrite !andb_true_iff, !strictEq_eq. tauto.
  - intros [H|H]; rewrite H; simpl; [reflexivity|].
    now rewrite andb_false_r.
Qed.

Lemma presence_condition_answer_witness :
  inKitchen CloudMe = Resolved tt /\
  snd (exec effect (conditionRunListener kitchen) (fun _ => inKitchen)
            (start nowhere)) = Val true.
Proof.
  split; [reflexivity|].
  destruct (presence_condition_answer kitchen nowhere (fun _ => inKitchen))
    as ((b & Hb & Hiff) & _ & Hok & _).
  rewrite Hb. f_equal. apply Hiff.
  destruct (Hok tt _ _ _ _ _ _ _ eq_refl eq_refl eq_refl eq_refl eq_refl)
    as [Hi Hn].
  rewrite Hi, Hn. repeat split.
Defined.

End AppSpec.

(** ** The TypeScript application *)

Module AppTsSpec.
Import AppTs.

Section Caches.
Variable SlowCache : Type.
Variable FastCache : Type.
Variable mapAll : SlowCache -> FastCache.

(** [setupConnections] keeps a rejected login to itself: it returns
    normally, with [loggedIn] false. *)
Lemma setupConnections_swallows_rejection
      (email password : jsval) (env : environment SlowCache)
      (s : estate (World SlowCache FastCache) call) e :
  env (List.length (trace s)) (MirrorLogin email password) = Rejected e ->
  exec (effect mapAll) (setupConnections email password) env s =
  (mkEstate (set_loggedIn _ _ false (world s))
            (trace s ++ [MirrorLogin email password]) (pending s),
   Val tt).
Proof.
  intros H. unfold setupConnections. simpl. rewrite H. reflexivity.
Qed.

(** So the [catch] of [synchronizeCloud] is never entered and the
    synchronization goes on: the raw cache is replaced by whatever
    [getAll] fetched and the fast cache is rebuilt from it. *)
Lemma synchronizeCloud_after_rejected_login
      (w : World SlowCache FastCache) (env : environment SlowCache)
      e snapshot :
  env 0 (MirrorLogin (settings_email w) (settings_password w))
  = Rejected e ->
  env 1 MirrorGetAll = Resolved snapshot ->
  env 2 MapperMapAll = Resolved tt ->
  let r := complete (effect mapAll) synchronizeCloud env w in
  snd r = Val tt /\
  trace (fst r) = [MirrorLogin (settings_email w) (settings_password w);
                   MirrorGetAll; MapperMapAll; UpdateDevices] /\
  slowCache (world (fst r)) = snapshot /\
  fastCache (world (fst r)) = mapAll snapshot /\
  loggedIn (world (fst r)) = false.
Proof.
  intros H0 H1 H2. unfold complete, synchronizeCloud, setupConnections.
  simpl. rewrite H0. simpl. rewrite H1. simpl. rewrite H2. simpl.
  repeat split.
Qed.

(** The settings flow does see a rejected login as the answer [false],
    and touches no cache. *)
Lemma setSettings_after_rejected_login
      (w : World SlowCache FastCache) (env : environment SlowCache)
      (email password : jsval) e :
  falsy email = false -> falsy password = false ->
  env 0 (MirrorLogin email password) = Rejected e ->
  let r := complete (effect mapAll) (setSettings email password) env w in
  snd r = Val false /\
  trace (fst r) = [MirrorLogin email password] /\
  slowCache (world (fst r)) = slowCache w /\
  fastCache (world (fst r)) = fastCache w.
Proof.
  intros He Hp H0. unfold complete, setSettings, setupConnections.
  rewrite He, Hp. simpl. rewrite H0. simpl. repeat split.
Qed.
End Caches.

(** C4, at the input where the code departs from it.  The stored password
    is wrong and the cloud rejects the login.  The synchronization does not
    stop: it goes on to [getAll], [mapAll] and [updateDevices], the raw cache
    that held one entity is replaced by the empty snapshot and the fast
    cache is rebuilt from it.  The settings flow, given the same
    credentials, is answered [false]. *)
Theorem rejected_login_still_replaces_caches :
  let r :=
    complete (effect (@List.length string)) synchronizeCloud
             (fun _ => loginRejected) account in
  trace (fst r)
  = [MirrorLogin (JStr "user@example.org") (JStr "stale");
     MirrorGetAll; MapperMapAll; UpdateDevices] /\
  slowCache account = ["old sphere"] /\ fastCache account = 1 /\
  slowCache (world (fst r)) = [] /\ fastCache (world (fst r)) = 0 /\
  loggedIn (world (fst r)) = false /\
  snd (complete (effect (@List.length string))
                (setSettings (JStr "user@example.org") (JStr "stale"))
                (fun _ => loginRejected) account) = Val false.
Proof. repeat split. Qed.

End AppTsSpec.

(** Split a conjunction without introducing anything. *)
Ltac conjs := repeat match goal with |- _ /\ _ => split end.

(** ** The device driver, further properties *)

Module DeviceMore.
Import Device.
Import DeviceSpec.
Import DeviceTerms.

#[local] Arguments getKeys : simpl never.
#[local] Arguments findCrownstone : simpl never.
#[local] Arguments switchBLE : simpl never.
#[local] Arguments switchCloud : simpl never.

(** X1. Over every interleaving of the event loop at most one switch
    command is suspended; while one is, [activeConnection] is true and a
    further switch request changes nothing: no call, no new task. *)
Theorem at_most_one_switch_in_flight :
  forall (w : World) (cfg : config),
    reachable effect handler w cfg ->
    countOf isOnOff (pool cfg) <= 1 /\
    (1 <= countOf isOnOff (pool cfg) ->
     activeConnection (cworld cfg) = true /\
     forall self value,
       step effect handler cfg (Request (OnOff self value)) = cfg).
Proof.
  intros w cfg R. destruct (invariant_reachable w cfg R) as (_ & C & F).
  split; [exact C|]. intros H.
  assert (B : activeConnection (cworld cfg) = true) by (apply F; lia).
  split; [exact B|]. intros self value.
  unfold step, handler. apply run_onCapabilityOnoff_busy. exact B.
Qed.

Lemma at_most_one_switch_in_flight_witness :
  let busy :=
    steps effect handler (init home)
          [Request (OnOff 0 true); Request (OnOff 1 false)] in
  countOf isOnOff (pool busy) <= 1.
Proof.
  apply (at_most_one_switch_in_flight home).
  apply reachable_steps. apply reach_init.
Defined.

(** The switch attempt never lets an error out and leaves the token
    taken. *)
Lemma exec_switchAttempt self value env s :
  let r := exec effect (switchAttempt self value) env s in
  snd r = Val tt /\ pending (fst r) = pending s /\
  sameDriverData (world s) (world (fst r)) /\
  exists calls, trace (fst r) = trace s ++ calls.
Proof.
  cbv zeta. unfold switchAttempt. rewrite exec_catch, exec_switchCloud.
  cbn [fst snd].
  match goal with |- context [env ?n ?c] => destruct (env n c) as [x|e] end.
  - cbn [fst snd world pending trace]. repeat split. eexists; reflexivity.
  - rewrite exec_catch.
    set (s1 := mkEstate (world s) (trace s ++ _) (pending s)).
    destruct (exec_switchBLE self value env s1)
      as (keys & n & Htr & _ & _ & Hp & Hsame & _).
    assert (Hx : exists calls,
               trace (fst (exec effect (switchBLE self value) env s1))
               = trace s ++ calls).
    { rewrite Htr. unfold s1. cbn [trace]. rewrite <- app_assoc.
      eexists; reflexivity. }
    destruct (snd (exec effect (switchBLE self value) env s1)) as [[]|e'];
      cbn [fst snd exec]; auto.
Qed.

Lemma exec_afterSwitch_full self (value : bool) (env : environment) s :
  let d := devices (world s) self in
  let mirror :=
    SetCapabilityValue self "dim" (CapNum (if value then 1 else 0)%float) in
  exec effect (afterSwitch self value) env s =
  if includes "dim" (capabilities d) then
    match env (List.length (trace s)) mirror with
    | Resolved _ =>
        (mkEstate (set_activeConnection false (world s))
                  (trace s ++ [mirror]) (pending s), Val tt)
    | Rejected e =>
        (mkEstate (world s) (trace s ++ [mirror]) (pending s), Exn e)
    end
  else (mkEstate (set_activeConnection false (world s)) (trace s)
                 (pending s), Val tt).
Proof.
  cbv zeta. unfold afterSwitch. simpl.
  destruct (includes "dim" (capabilities (devices (world s) self)));
    [|reflexivity].
  destruct value; simpl;
    match goal with |- context [env ?n ?c] => destruct (env n c) as [[]|e] end;
    reflexivity.
Qed.

(** How a dispatched switch command can end. *)
Lemma onoff_outcome w self (value : bool) (env : environment) :
  activeConnection w = false -> loginState w = true ->
  let r := exec effect (onCapabilityOnoff self value) env (start w) in
  let mirror :=
    SetCapabilityValue self "dim" (CapNum (if value then 1 else 0)%float) in
  (snd r = Val tt /\ activeConnection (world (fst r)) = false) \/
  (exists e before,
      snd r = Exn e /\ activeConnection (world (fst r)) = true /\
      includes "dim" (capabilities (devices w self)) = true /\
      trace (fst r) = before ++ [mirror]).
Proof.
  intros Hb Hl. cbv zeta.
  rewrite (onCapabilityOnoff_dispatched self value env w Hb Hl).
  rewrite exec_bind.
  set (s0 := mkEstate (set_activeConnection true w) [] []).
  destruct (exec_switchAttempt self value env s0)
    as (Hv & _ & (Hac & _ & _ & Hdev) & calls & Htr).
  rewrite Hv.
  set (s1 := fst (exec effect (switchAttempt self value) env s0)) in *.
  rewrite exec_afterSwitch_full.
  destruct (Hdev self) as (_ & _ & Hcap & _). cbn [s0 world] in Hcap, Hac.
  change (devices (set_activeConnection true w) self) with (devices w self)
    in Hcap.
  rewrite Hcap.
  destruct (includes "dim" (capabilities (devices w self))).
  - match goal with |- context [env ?n ?c] => destruct (env n c) as [x|e] end;
      cbn [fst snd world trace].
    + left. split; reflexivity.
    + right. exists e, (trace s1). repeat split. exact Hac.
  - left. split; reflexivity.
Qed.

(** X2. A dispatched switch command gives the token back whenever it ends
    normally, and failures of the cloud and of the radio link never make it
    end otherwise: on a device without dim capability it always ends
    normally.  The only way out with an error is a rejected update of the
    dim level, and then the token is kept. *)
Theorem switch_token_returned_unless_mirror_rejected :
  forall (w : World) (self : nat) (value : bool) (env : environment),
    activeConnection w = false -> loginState w = true ->
    let r := exec effect (onCapabilityOnoff self value) env (start w) in
    let mirror :=
      SetCapabilityValue self "dim" (CapNum (if value then 1 else 0)%float) in
    (snd r = Val tt -> activeConnection (world (fst r)) = false) /\
    (includes "dim" (capabilities (devices w self)) = false ->
     snd r = Val tt) /\
    (forall e, snd r = Exn e ->
       activeConnection (world (fst r)) = true /\
       includes "dim" (capabilities (devices w self)) = true /\
       exists before, trace (fst r) = before ++ [mirror]).
Proof.
  intros w self value env Hb Hl. cbv zeta.
  destruct (onoff_outcome w self value env Hb Hl)
    as [[Hv Ha]|(e & before & Hv & Ha & Hd & Ht)].
  - rewrite Hv. split; [intros _; exact Ha|].
    split; [reflexivity|]. intros e H. discriminate H.
  - rewrite Hv. split; [intros H; discriminate H|].
    split; [intros H; rewrite Hd in H; discriminate H|].
    intros e' _. repeat split; try assumption. exists before. exact Ht.
Qed.

Lemma switch_token_returned_unless_mirror_rejected_witness :
  activeConnection home = false /\ loginState home = true /\
  activeConnection
    (world (fst (exec effect (onCapabilityOnoff 0 true) (fun _ => cloudDown)
                      (start home)))) = false.
Proof.
  split; [reflexivity|split; [reflexivity|]].
  apply (switch_token_returned_unless_mirror_rejected
           home 0 true (fun _ => cloudDown) eq_refl eq_refl).
  reflexivity.
Defined.

Lemma busy_drops_requests w self env :
  activeConnection w = true ->
  (forall v, exec effect (onCapabilityOnoff self v) env (start w)
             = (start w, Val tt)) /\
  (forall v, exec effect (onCapabilityDim self v) env (start w)
             = (start w, Val tt)).
Proof.
  intros H. split; intros v.
  - unfold onCapabilityOnoff. simpl. rewrite H. reflexivity.
  - unfold onCapabilityDim. simpl. rewrite H. reflexivity.
Qed.

(** X3. When the update of the dim level is rejected, the switch command
    ends with [activeConnection] still true, and from then on every switch
    request and every dim request, on any device, is dropped without a
    call. *)
Theorem rejected_mirror_blocks_later_requests :
  forall (w : World) (self : nat) (value : bool) (env : environment) e,
    activeConnection w = false -> loginState w = true ->
    snd (exec effect (onCapabilityOnoff self value) env (start w)) = Exn e ->
    let w' :=
      world (fst (exec effect (onCapabilityOnoff self value) env (start w))) in
    forall (other : nat) (env' : environment),
      (forall v, exec effect (onCapabilityOnoff other v) env' (start w')
                 = (start w', Val tt)) /\
      (forall v, exec effect (onCapabilityDim other v) env' (start w')
                 = (start w', Val tt)).
Proof.
  intros w self value env e Hb Hl He. cbv zeta. intros other env'.
  destruct (onoff_outcome w self value env Hb Hl)
    as [[Hv _]|(e' & before & _ & H & _)].
  - rewrite Hv in He. discriminate He.
  - apply busy_drops_requests. exact H.
Qed.

Lemma rejected_mirror_blocks_later_requests_witness :
  activeConnection home = false /\ loginState home = true /\
  snd (exec effect (onCapabilityOnoff 0 true) (fun _ => mirrorRejected)
            (start home)) = Exn "invalid capability" /\
  let stuck :=
    world (fst (exec effect (onCapabilityOnoff 0 true)
                     (fun _ => mirrorRejected) (start home))) in
  exec effect (onCapabilityOnoff 0 false) (fun _ => allFine) (start stuck)
  = (start stuck, Val tt).
Proof.
  split; [reflexivity|split; [reflexivity|split; [reflexivity|]]].
  intros stuck.
  apply (rejected_mirror_blocks_later_requests
           home 0 true (fun _ => mirrorRejected) "invalid capability"
           eq_refl eq_refl eq_refl 0 (fun _ => allFine)).
Defined.




(** X6. The dim level sent to the cloud is [percentage value] and is never
    strictly between 0 and 10.  It is only sent after the on/off update that
    agrees with it: the on-state was set to true exactly when the level is
    above 0, and to false exactly when the level is not above 0 and below
    1. *)
Theorem dim_level_agrees_with_onoff :
  forall (w : World) (self : nat) (value : float) (env : environment)
         (id : string) (level : float),
    let calls :=
      trace (fst (exec effect (onCapabilityDim self value) env (start w))) in
    In (CloudSetSwitch id level) calls ->
    level = percentage value /\
    (0 <? level)%float && (level <? 10)%float = false /\
    (In (SetCapabilityValue self "onoff" (CapBool true)) calls <->
     (0 <? level)%float = true) /\
    (In (SetCapabilityValue self "onoff" (CapBool false)) calls <->
     (0 <? level)%float = false /\ (level <? 1)%float = true).
Proof.
  intros w self value env id level. cbv zeta.
  assert (F : ((0 <? percentage value)%float
               && (percentage value <? 10)%float) = false).
  { unfold percentage.
    destruct ((0 <? value * 100)%float && (value * 100 <? 10)%float) eqn:G;
      [reflexivity|exact G]. }
  unfold onCapabilityDim. simpl.
  destruct (negb (activeConnection w) && loginState w); simpl;
    [|intros []].
  destruct (0 <? percentage value)%float eqn:P;
    [|destruct (percentage value <? 1)%float eqn:Q];
    settle_calls; intros H;
      repeat match goal with
             | H : _ \/ _ |- _ => destruct H as [H|H]
             | H : False |- _ => destruct H
             | H : _ = CloudSetSwitch _ _ |- _ =>
                 first [discriminate H | inversion H; subst; clear H]
             end;
      rewrite ?P, ?Q;
      (split; [reflexivity|split; [exact F|]]);
      split; split; intros H;
        repeat match goal with
               | H : _ \/ _ |- _ => destruct H as [H|H]
               | H : False |- _ => destruct H
               | H : _ /\ _ |- _ => destruct H
               | H : _ = SetCapabilityValue _ _ _ |- _ => discriminate H
               | H : true = false |- _ => discriminate H
               | H : false = true |- _ => discriminate H
               end;
        try reflexivity; try (split; reflexivity);
        try (left; reflexivity).
Qed.

Lemma dim_level_agrees_with_onoff_witness :
  In (CloudSetSwitch "cs1" 10)
     (trace (fst (exec effect (onCapabilityDim 0 0x1.999999999999ap-5)
                       (fun _ => allFine) (start home)))) /\
  In (SetCapabilityValue 0 "onoff" (CapBool true))
     (trace (fst (exec effect (onCapabilityDim 0 0x1.999999999999ap-5)
                       (fun _ => allFine) (start home)))).
Proof.
  assert (H : In (CloudSetSwitch "cs1" 10)
                 (trace (fst (exec effect
                                   (onCapabilityDim 0 0x1.999999999999ap-5)
                                   (fun _ => allFine) (start home)))))
    by (right; left; reflexivity).
  split; [exact H|].
  destruct (dim_level_agrees_with_onoff home 0 0x1.999999999999ap-5%float
                                        (fun _ => allFine) "cs1" 10%float H)
    as (_ & _ & Hon & _).
  apply Hon. reflexivity.
Defined.





(** X8. After [changeLockState state], once the platform call has resolved,
    the device is available exactly when [state] is false, whatever its
    availability was before.  The stored [locked] flag is written only when
    the availability had to change; the capabilities of the device and all
    other devices are untouched, and at most one platform call is made. *)
Theorem lock_state_decides_availability :
  forall (w : World) (self : nat) (state : bool) (env : environment),
    resolves env ->
    let r := complete effect (changeLockState self state) env w in
    let d := devices w self in
    let d' := devices (world (fst r)) self in
    snd r = Val tt /\
    available d' = negb state /\
    (available d = state -> data_locked d' = state) /\
    (available d = negb state -> d' = d /\ trace (fst r) = []) /\
    capabilities d' = capabilities d /\
    List.length (trace (fst r)) <= 1 /\
    (forall n, n <> self -> devices (world (fst r)) n = devices w n).
Proof.
  intros w self state env Hok. cbv zeta.
  unfold complete, changeLockState. simpl.
  destruct state, (available (devices w self)) eqn:Av; simpl;
    try rewrite Av; simpl;
    try (destruct (Hok 0 (SetUnavailable self "This device is locked."))
          as [[] ->]);
    try (destruct (Hok 0 (SetAvailable self)) as [[] ->]);
    simpl; rewrite ?Nat.eqb_refl; simpl;
    conjs; try reflexivity; try lia; try (intros H; discriminate H);
    try (intros _; split; reflexivity);
    intros n Hn; apply Nat.eqb_neq in Hn; rewrite ?Hn; reflexivity.
Qed.

Lemma resolves_allFine : resolves (fun _ => allFine).
Proof. intros n c. destruct c; simpl; eexists; reflexivity. Qed.

Lemma lock_state_decides_availability_witness :
  resolves (fun _ => allFine) /\
  available
    (devices (world (fst (complete effect (changeLockState 0 true)
                                   (fun _ => allFine) home))) 0) = false.
Proof.
  split; [exact resolves_allFine|].
  destruct (lock_state_decides_availability home 0 true (fun _ => allFine)
                                            resolves_allFine)
    as (_ & H & _).
  exact H.
Defined.

Lemma includes_other_added cap caps :
  cap <> "dim" -> includes cap (caps ++ ["dim"]) = includes cap caps.
Proof.
  intros H. unfold includes. rewrite existsb_app. simpl.
  apply String.eqb_neq in H. rewrite H. now rewrite !orb_false_r.
Qed.

Lemma includes_other_removed cap caps :
  cap <> "dim" ->
  includes cap (filter (fun x => negb (String.eqb "dim" x)) caps)
  = includes cap caps.
Proof.
  intros H. unfold includes. induction caps as [|c caps IH]; [reflexivity|].
  cbn [filter existsb]. destruct (String.eqb "dim" c) eqn:E; cbn [negb existsb].
  - apply String.eqb_eq in E. subst c. apply String.eqb_neq in H.
    rewrite H. exact IH.
  - rewrite IH. reflexivity.
Qed.

(** X9. After [changeDimCapability state], once the platform call has
    resolved, the device has the dim capability exactly when [state] is
    true; every other capability is kept; the stored [dimmed] flag is
    written only when the capability had to change; availability and all
    other devices are untouched.  The call is not awaited, so the method
    itself always ends normally. *)
Theorem dim_capability_follows_dimmable :
  forall (w : World) (self : nat) (state : bool) (env : environment),
    resolves env ->
    let r := complete effect (changeDimCapability self state) env w in
    let d := devices w self in
    let d' := devices (world (fst r)) self in
    snd r = Val tt /\
    includes "dim" (capabilities d') = state /\
    (forall cap, cap <> "dim" ->
       includes cap (capabilities d') = includes cap (capabilities d)) /\
    (includes "dim" (capabilities d) = negb state -> data_dimmed d' = state) /\
    (includes "dim" (capabilities d) = state ->
     d' = d /\ trace (fst r) = []) /\
    available d' = available d /\
    (forall n, n <> self -> devices (world (fst r)) n = devices w n).
Proof.
  intros w self state env Hok. cbv zeta.
  unfold complete, changeDimCapability. simpl.
  destruct state, (includes "dim" (capabilities (devices w self))) eqn:In;
    simpl; try rewrite In; simpl;
    try (destruct (Hok 0 (AddCapability self "dim")) as [[] ->]);
    try (destruct (Hok 0 (RemoveCapability self "dim")) as [[] ->]);
    simpl; rewrite ?Nat.eqb_refl; simpl;
    conjs; try reflexivity; try exact In;
      try (intros H; discriminate H);
      try (intros _; split; reflexivity);
      try (apply (includes_added "dim"));
      try (apply (includes_removed "dim"));
      try (intros cap Hc; first [apply includes_other_added
                                | apply includes_other_removed]; exact Hc);
      intros n Hn; apply Nat.eqb_neq in Hn; rewrite ?Hn; reflexivity.
Qed.

Lemma dim_capability_follows_dimmable_witness :
  resolves (fun _ => allFine) /\
  includes "dim"
    (capabilities
       (devices (world (fst (complete effect (changeDimCapability 0 false)
                                      (fun _ => allFine) home))) 0)) = false.
Proof.
  split; [exact resolves_allFine|].
  destruct (dim_capability_follows_dimmable home 0 false (fun _ => allFine)
                                            resolves_allFine)
    as (_ & H & _).
  exact H.
Defined.

(** X10. The stored flag is written before the platform is asked.  When the
    platform rejects the change of availability, [changeLockState] ends with
    the error, the [locked] flag already holds the new value and the
    availability is the old one.  When the platform rejects the change of
    capability, [changeDimCapability] still ends normally (the call is not
    awaited), the [dimmed] flag holds the new value and the capabilities are
    the old ones. *)
Theorem rejected_platform_call_leaves_flag_written :
  forall (w : World) (self : nat) (state : bool) (env : environment) e,
    (forall n c, env n c = Rejected e) ->
    let d := devices w self in
    let lock := complete effect (changeLockState self state) env w in
    let dim := complete effect (changeDimCapability self state) env w in
    (available d = state ->
     snd lock = Exn e /\
     data_locked (devices (world (fst lock)) self) = state /\
     available (devices (world (fst lock)) self) = available d) /\
    (includes "dim" (capabilities d) = negb state ->
     snd dim = Val tt /\
     data_dimmed (devices (world (fst dim)) self) = state /\
     capabilities (devices (world (fst dim)) self) = capabilities d).
Proof.
  intros w self state env e Hrej. cbv zeta. split.
  - intros Av. unfold complete, changeLockState. simpl. rewrite Av.
    destruct state; simpl; rewrite Hrej; simpl; rewrite Nat.eqb_refl;
      repeat split; simpl; auto.
  - intros In. unfold complete, changeDimCapability. simpl. rewrite In.
    destruct state; simpl; rewrite Hrej; simpl; rewrite Nat.eqb_refl;
      repeat split.
Qed.

Lemma rejected_platform_call_leaves_flag_written_witness :
  (forall (n : nat) c, allRejected c = Rejected "down") /\
  available plug = true /\
  snd (complete effect (changeLockState 0 true) (fun _ => allRejected) home)
  = Exn "down".
Proof.
  split; [reflexivity|split; [reflexivity|]].
  destruct (proj1 (rejected_platform_call_leaves_flag_written
                     home 0 true (fun _ => allRejected) "down"
                     (fun _ _ => eq_refl)) eq_refl)
    as (H & _).
  exact H.
Defined.

(** X11. A failed key retrieval changes nothing.  When the application
    cannot tell the sphere, or the cloud rejects the request for its keys,
    [getKeys] ends with that error after that call, and the fields and the
    loaded keys of the device are exactly as before, so that the next call
    fetches again. *)
Theorem failed_key_retrieval_changes_nothing :
  forall (w : World) (self : nat) (env : environment),
    keysObtained (settings (devices w self)) = false ->
    let r := exec effect (getKeys self) env (start w) in
    (forall e, env 0 AppGetSphereId = Rejected e ->
       r = (mkEstate w [AppGetSphereId] [], Exn e)) /\
    (forall sphereId e,
       env 0 AppGetSphereId = Resolved sphereId ->
       env 1 (CloudSphereKeys sphereId) = Rejected e ->
       r = (mkEstate w [AppGetSphereId; CloudSphereKeys sphereId] [], Exn e)) /\
    (forall e, snd r = Exn e ->
       world (fst r) = w /\
       forall env',
         hd_error (trace (fst (exec effect (getKeys self) env'
                                    (start (world (fst r))))))
         = Some AppGetSphereId).
Proof.
  intros w self env H. cbv zeta. unfold getKeys. simpl. rewrite H. simpl.
  conjs.
  - intros e E. rewrite E. reflexivity.
  - intros sphereId e E0 E1. rewrite E0. simpl. rewrite E1. reflexivity.
  - intros e.
    destruct (env 0 AppGetSphereId) as [sphereId|e0]; simpl.
    + destruct (env 1 (CloudSphereKeys sphereId)) as [keys|e1]; simpl.
      * intros E. discriminate E.
      * intros _. split; [reflexivity|]. intros env'. rewrite H. simpl.
        destruct (env' 0 AppGetSphereId) as [s|e']; simpl; [|reflexivity].
        destruct (env' 1 (CloudSphereKeys s)); reflexivity.
    + intros _. split; [reflexivity|]. intros env'. rewrite H. simpl.
      destruct (env' 0 AppGetSphereId) as [s|e']; simpl; [|reflexivity].
      destruct (env' 1 (CloudSphereKeys s)); reflexivity.
Qed.

Lemma failed_key_retrieval_changes_nothing_witness :
  keysObtained (settings (devices home 0)) = false /\
  exec effect (getKeys 0) (fun _ => noSphere) (start home)
  = (mkEstate home [AppGetSphereId] [], Exn "no sphere").
Proof.
  split; [reflexivity|].
  apply (proj1 (failed_key_retrieval_changes_nothing
                  home 0 (fun _ => noSphere) eq_refl)).
  reflexivity.
Defined.

End DeviceMore.

(** ** The flow cards, further properties *)

Module AppMore.
Import App.
Import AppSpec.
Import AppTerms.

(** X12. When the poll finds the user in a sphere but in no room, only
    [sphereId] is updated: the last known room is kept, and the condition
    answers for that room as if the user were still there. *)
Theorem room_kept_when_user_is_in_no_room :
  forall (rooms : Room) (w : World) (env : environment)
         x u us sp sps s ss,
    env 0 CloudMe = Resolved x ->
    env 1 CurrentLocation = Resolved (u :: us) ->
    env 2 CloudSpheres = Resolved (sp :: sps) ->
    inSpheres u = s :: ss -> inLocation s = None ->
    let r := exec effect (conditionRunListener rooms) env (start w) in
    world (fst r) = set_sphereId (inSphere_sphereId s) w /\
    snd r = Val (isDefined (inLocationId w) && isDefined (inLocationName w)
                 && (strictEq (id rooms) (inLocationId w)
                     && strictEq (name rooms) (inLocationName w))).
Proof.
  intros rooms w env x u us sp sps s ss E0 E1 E2 E3 E4. cbv zeta.
  rewrite condition_after_poll. cbv zeta. cbn [fst snd].
  assert (H : world (fst (exec effect (catch (getCurrentLocation (Ret tt))
                                             (fun _ => Ret tt)) env (start w)))
              = set_sphereId (inSphere_sphereId s) w).
  { unfold getCurrentLocation. simpl. rewrite E0. simpl. rewrite E1. simpl.
    rewrite E2. simpl. rewrite E3. simpl. rewrite E4. reflexivity. }
  rewrite H. split; reflexivity.
Qed.


Lemma room_kept_when_user_is_in_no_room_witness :
  inLocation roomless = None /\
  snd (exec effect (conditionRunListener kitchen) (fun _ => inNoRoom)
            (start lastInKitchen)) = Val true.
Proof.
  split; [reflexivity|].
  destruct (room_kept_when_user_is_in_no_room
              kitchen lastInKitchen (fun _ => inNoRoom) tt
              (mkUserLocation [roomless]) [] "sphere1" [] roomless []
              eq_refl eq_refl eq_refl eq_refl eq_refl) as [_ H].
  exact H.
Defined.

(** X13. A poll never leaves the last known room half written: after it,
    the name and the id are either both what they were or both those of the
    room the cloud reported first. *)
Theorem poll_writes_the_room_as_a_pair :
  forall (w : World) (env : environment),
    let w' :=
      world (fst (exec effect (catch (getCurrentLocation (Ret tt))
                                     (fun _ => Ret tt)) env (start w))) in
    (inLocationName w' = inLocationName w /\
     inLocationId w' = inLocationId w) \/
    (exists u us s ss l,
        env 1 CurrentLocation = Resolved (u :: us) /\
        inSpheres u = s :: ss /\ inLocation s = Some l /\
        inLocationName w' = locationName l /\
        inLocationId w' = locationId l /\
        sphereId w' = inSphere_sphereId s).
Proof.
  intros w env. cbv zeta. unfold getCurrentLocation. simpl.
  destruct (env 0 CloudMe) as [x0|e0]; simpl; [|left; split; reflexivity].
  destruct (env 1 CurrentLocation) as [[|u us]|e1] eqn:E1; simpl;
    try (left; split; reflexivity).
  destruct (env 2 CloudSpheres) as [[|sp sps]|e2]; simpl;
    try (left; split; reflexivity).
  destruct (inSpheres u) as [|s ss] eqn:E3; simpl;
    [left; split; reflexivity|].
  destruct (inLocation s) as [l|] eqn:E4; simpl;
    [|left; split; reflexivity].
  right. exists u, us, s, ss, l. repeat split; assumption.
Qed.

End AppMore.

(** ** Room autocompletion *)

Module RoomsSpec.
Import Rooms.

Lemma exec_lift {A} (p : App.prog A) (env : environment) s :
  exec effect (lift p) env (liftState s) =
  (liftState (fst (exec App.effect p (pollEnvironment env) s)),
   snd (exec App.effect p (pollEnvironment env) s)).
Proof.
  revert s.
  induction p as [a|e|k IH|g k IH|c k IH|c k IH|k IH]; intros s; simpl.
  - reflexivity.
  - reflexivity.
  - apply IH.
  - apply (IH (mkEstate (g (world s)) (trace s) (pending s))).
  - rewrite length_map.
    specialize (IH (pollEnvironment env (List.length (trace s)) c)
                   (mkEstate (world s) (trace s ++ [c]) (pending s))).
    unfold liftState in IH. simpl in IH. rewrite map_app in IH. exact IH.
  - rewrite length_map.
    specialize (IH (mkEstate (world s) (trace s ++ [c])
                             (pending s ++ [(List.length (trace s), c)]))).
    unfold liftState in IH. simpl in IH. rewrite !map_app in IH. exact IH.
  - apply IH.
Qed.

Lemma pushRooms_map rooms : forall roomList,
  pushRooms rooms roomList = roomList ++ map roomOf rooms.
Proof.
  induction rooms as [|r rest IH]; intros roomList; simpl.
  - now rewrite app_nil_r.
  - rewrite IH, <- app_assoc. reflexivity.
Qed.

(** [getRooms] once its poll is over. *)
Lemma getRooms_after_poll (env : environment) w :
  exec effect getRooms env (start w) =
  let s := fst (exec App.effect
                     (catch (App.getCurrentLocation (Ret tt)) (fun _ => Ret tt))
                     (pollEnvironment env) (start w)) in
  let ask := SphereLocations (App.sphereId (world s)) in
  (mkEstate (world s) (map Poll (trace s) ++ [ask]) (pending (liftState s)),
   match env (List.length (trace s)) ask with
   | Resolved rooms =>
       Val (if Nat.ltb 0 (List.length rooms) then RoomList (listRooms rooms)
            else Null)
   | Rejected e => Exn e
   end).
Proof.
  unfold getRooms. rewrite exec_bind.
  change (@start App.World call w) with (liftState (start w)).
  rewrite exec_lift. cbn [fst snd]. rewrite AppSpec.poll_caught. cbv zeta.
  set (s := fst (exec App.effect _ (pollEnvironment env) _)).
  simpl. rewrite length_map.
  destruct (env (List.length (trace s)) (SphereLocations (App.sphereId (world s))))
    as [rooms|e]; simpl; [|reflexivity].
  destruct (Nat.ltb 0 (List.length rooms)); reflexivity.
Qed.

(** X14. The autocomplete listener of the room argument never fails.  It
    polls the location first and then asks the cloud for the rooms of the
    sphere the poll left in [sphereId], whether or not the poll succeeded.
    If the cloud knows no room it answers [null], never an empty list;
    otherwise it answers the rooms in the order of the cloud, each reduced
    to its name and id; if the request is rejected it answers
    [undefined]. *)
Theorem autocomplete_lists_the_rooms_of_the_polled_sphere :
  forall (w : App.World) (env : environment),
    let polled :=
      fst (exec App.effect
                (catch (App.getCurrentLocation (Ret tt)) (fun _ => Ret tt))
                (pollEnvironment env) (start w)) in
    let ask := SphereLocations (App.sphereId (world polled)) in
    let r := exec effect autocompleteListener env (start w) in
    trace (fst r) = map Poll (trace polled) ++ [ask] /\
    (forall rooms,
        env (List.length (trace polled)) ask = Resolved rooms ->
        snd r = Val (match rooms with
                     | [] => Null
                     | _ :: _ => RoomList (map roomOf rooms)
                     end)) /\
    (forall e,
        env (List.length (trace polled)) ask = Rejected e ->
        snd r = Val Undefined) /\
    snd r <> Val (RoomList []) /\
    (forall e, snd r <> Exn e).
Proof.
  intros w env. cbv zeta. unfold autocompleteListener.
  rewrite exec_catch, getRooms_after_poll. cbv zeta. cbn [fst snd].
  set (s := fst (exec App.effect _ (pollEnvironment env) _)).
  destruct (env (List.length (trace s)) (SphereLocations (App.sphereId (world s))))
    as [rooms|e]; cbn [fst snd exec trace].
  - split; [reflexivity|]. split.
    + intros rooms' H. inversion H; subst rooms'.
      destruct rooms as [|r rest]; [reflexivity|].
      unfold listRooms. rewrite pushRooms_map. reflexivity.
    + split; [intros e H; discriminate H|].
      split; [|intros e H; destruct (Nat.ltb 0 (List.length rooms));
                 discriminate H].
      destruct rooms as [|r rest]; simpl; [intros H; discriminate H|].
      unfold listRooms. rewrite pushRooms_map. simpl. intros H. discriminate H.
  - split; [reflexivity|]. split; [intros rooms H; discriminate H|].
    split; [reflexivity|]. split; intros; discriminate.
Qed.

Lemma autocomplete_lists_the_rooms_of_the_polled_sphere_witness :
  snd (exec effect autocompleteListener (fun _ => twoRooms)
            (start App.nowhere))
  = Val (RoomList [App.kitchen; App.hall]).
Proof.
  exact (proj1 (proj2 (autocomplete_lists_the_rooms_of_the_polled_sphere
                         App.nowhere (fun _ => twoRooms)))
               [mkCloudLocation (JStr "Kitchen") (JStr "A") (JStr "fork");
                mkCloudLocation (JStr "Hall") (JStr "B") JUndefined]
               eq_refl).
Defined.

End RoomsSpec.

(** ** The TypeScript application, further properties *)

Module AppTsMore.
Import AppTs.
Import AppTsTerms.

(** Close an equivalence between what a run shows and what the environment
    answered. *)
Ltac settle_iff :=
  split; intros;
  repeat match goal with
         | H : _ /\ _ |- _ => destruct H
         | H : exists _, _ |- _ => destruct H
         | H : _ \/ _ |- _ => destruct H
         | H : False |- _ => destruct H
         end;
  try discriminate; try reflexivity;
  try (split; eexists; reflexivity); try (eexists; reflexivity);
  try (right; left; reflexivity).

Section Caches.
Variable SlowCache : Type.
Variable FastCache : Type.
Variable mapAll : SlowCache -> FastCache.

(** X15. [setupConnections] never fails.  It tries the event server only
    after the cloud has accepted the login, and [loggedIn] ends up true
    exactly when both logins resolved; the stored settings and the caches are
    not touched. *)
Theorem logged_in_iff_both_logins_resolve :
  forall (w : World SlowCache FastCache) (email password : jsval)
         (env : environment SlowCache),
    let r := exec (effect mapAll) (setupConnections email password) env
                  (start w) in
    let cloud := MirrorLogin email password in
    let events := ServerEventsLogin email password in
    snd r = Val tt /\
    (loggedIn (world (fst r)) = true <->
     (exists x, env 0 cloud = Resolved x) /\
     (exists y, env 1 events = Resolved y)) /\
    (In events (trace (fst r)) <-> exists x, env 0 cloud = Resolved x) /\
    hd_error (trace (fst r)) = Some cloud /\
    settings_email (world (fst r)) = settings_email w /\
    settings_password (world (fst r)) = settings_password w /\
    slowCache (world (fst r)) = slowCache w /\
    fastCache (world (fst r)) = fastCache w.
Proof.
  intros w email password env. cbv zeta. unfold setupConnections. simpl.
  destruct (env 0 (MirrorLogin email password)) as [x|e]; simpl;
    [destruct (env 1 (ServerEventsLogin email password)) as [y|e]; simpl|];
    conjs; try reflexivity; settle_iff.
Qed.

(** X16. Without an email address or without a password the settings flow
    is answered [false] at once: no login is tried, nothing is stored,
    [loggedIn] keeps its value. *)
Theorem empty_credentials_are_refused_without_a_call :
  forall (w : World SlowCache FastCache) (email password : jsval)
         (env : environment SlowCache),
    falsy email = true \/ falsy password = true ->
    complete (effect mapAll) (setSettings email password) env w
    = (start w, Val false).
Proof.
  intros w email password env [H|H]; unfold complete, setSettings.
  - rewrite H. reflexivity.
  - rewrite H. destruct (falsy email); reflexivity.
Qed.

(** X17. With an email address and a password the settings flow tries the
    login and then stores both, also when the login was rejected.  It
    answers [loggedIn], which is true exactly when both logins resolved; it
    never fetches or maps data. *)
Theorem credentials_are_stored_whatever_the_login :
  forall (w : World SlowCache FastCache) (email password : jsval)
         (env : environment SlowCache),
    falsy email = false -> falsy password = false ->
    let r := complete (effect mapAll) (setSettings email password) env w in
    settings_email (world (fst r)) = email /\
    settings_password (world (fst r)) = password /\
    snd r = Val (loggedIn (world (fst r))) /\
    (snd r = Val true <->
     (exists x, env 0 (MirrorLogin email password) = Resolved x) /\
     (exists y, env 1 (ServerEventsLogin email password) = Resolved y)) /\
    ~ In MirrorGetAll (trace (fst r)) /\
    ~ In MapperMapAll (trace (fst r)) /\
    slowCache (world (fst r)) = slowCache w /\
    fastCache (world (fst r)) = fastCache w.
Proof.
  intros w email password env He Hp. cbv zeta.
  unfold complete, setSettings, setupConnections. rewrite He, Hp. simpl.
  destruct (env 0 (MirrorLogin email password)) as [x|e]; simpl;
    [destruct (env 1 (ServerEventsLogin email password)) as [y|e]; simpl|];
    conjs; try reflexivity;
    try (intros H; repeat destruct H as [H|H]; try discriminate H;
         destruct H);
    settle_iff.
Qed.

(** X18. [synchronizeCloud] maps only what it fetched and updates the
    devices only after mapping: after the logins it calls [getAll],
    [mapAll] and [updateDevices] in that order, and the first of the two
    awaited calls that is rejected ends it with that error, the later ones
    not being made.  The devices are updated exactly when it ends
    normally. *)
Theorem synchronization_stops_at_the_first_failed_stage :
  forall (w : World SlowCache FastCache) (env : environment SlowCache),
    let r := complete (effect mapAll) synchronizeCloud env w in
    exists logins,
      (logins = [MirrorLogin (settings_email w) (settings_password w)] \/
       logins = [MirrorLogin (settings_email w) (settings_password w);
                 ServerEventsLogin (settings_email w) (settings_password w)]) /\
      let n := List.length logins in
      match env n MirrorGetAll with
      | Rejected e =>
          snd r = Exn e /\ trace (fst r) = logins ++ [MirrorGetAll]
      | Resolved _ =>
          match env (S n) MapperMapAll with
          | Rejected e =>
              snd r = Exn e /\
              trace (fst r) = logins ++ [MirrorGetAll; MapperMapAll]
          | Resolved _ =>
              snd r = Val tt /\
              trace (fst r)
              = logins ++ [MirrorGetAll; MapperMapAll; UpdateDevices]
          end
      end.
Proof.
  intros w env. cbv zeta.
  unfold complete, synchronizeCloud, setupConnections. simpl.
  destruct (env 0 (MirrorLogin (settings_email w) (settings_password w)))
    as [x|e]; simpl.
  - destruct (env 1 (ServerEventsLogin (settings_email w)
                                       (settings_password w)))
      as [y|e]; simpl;
      (eexists; split; [right; reflexivity|]); simpl;
      destruct (env 2 MirrorGetAll) as [s|e1]; simpl;
        try (split; reflexivity);
        destruct (env 3 MapperMapAll) as [m|e2]; simpl; split; reflexivity.
  - eexists; split; [left; reflexivity|]. simpl.
    destruct (env 1 MirrorGetAll) as [s|e1]; simpl;
      try (split; reflexivity);
      destruct (env 2 MapperMapAll) as [m|e2]; simpl; split; reflexivity.
Qed.
End Caches.

Lemma empty_credentials_are_refused_without_a_call_witness :
  AppTs.falsy (JStr "") = true /\
  complete (effect (@List.length string)) (setSettings (JStr "") (JStr "pw"))
           (fun _ => loginAccepted) account
  = (start account, Val false).
Proof.
  split; [reflexivity|].
  apply (empty_credentials_are_refused_without_a_call
           (list string) nat (@List.length string)).
  left. reflexivity.
Defined.

Lemma credentials_are_stored_whatever_the_login_witness :
  falsy (JStr "user@example.org") = false /\ falsy (JStr "wrong") = false /\
  settings_password
    (world (fst (complete (effect (@List.length string))
                          (setSettings (JStr "user@example.org")
                                       (JStr "wrong"))
                          (fun _ => loginRejected) account)))
  = JStr "wrong".
Proof.
  split; [reflexivity|split; [reflexivity|]].
  destruct (credentials_are_stored_whatever_the_login
              (list string) nat (@List.length string) account
              (JStr "user@example.org") (JStr "wrong")
              (fun _ => loginRejected) eq_refl eq_refl)
    as (_ & H & _).
  exact H.
Defined.

End AppTsMore.

(** ** Logging in to the event server *)

Module LoginSpec.
Import Login.

(** X19. [loginToEventServer] stops the running event stream before it
    logs in, and starts it again only after the login has resolved.  So
    events are delivered afterwards exactly when all three calls resolved
    (or when the stop itself was rejected and they were delivered before);
    in particular, credentials that the event server rejects leave a stream
    that was delivering events stopped. *)
Theorem rejected_event_login_leaves_the_stream_stopped :
  forall (w : World) (email password : jsval) (env : environment),
    let r := exec effect (loginToEventServer email password) env (start w) in
    hd_error (trace (fst r)) = Some SseStop /\
    (In SseStart (trace (fst r)) <->
     (exists x, env 0 SseStop = Resolved x) /\
     (exists y, env 1 (SseLogin email password) = Resolved y)) /\
    (forall x e,
        env 0 SseStop = Resolved x ->
        env 1 (SseLogin email password) = Rejected e ->
        snd r = Exn e /\ listening (world (fst r)) = false /\
        trace (fst r) = [SseStop; SseLogin email password]) /\
    (forall x y z,
        env 0 SseStop = Resolved x ->
        env 1 (SseLogin email password) = Resolved y ->
        env 2 SseStart = Resolved z ->
        snd r = Val tt /\ listening (world (fst r)) = true) /\
    (forall e, env 0 SseStop = Rejected e ->
               snd r = Exn e /\ world (fst r) = w /\
               trace (fst r) = [SseStop]) /\
    cloudSession (world (fst r)) = cloudSession w.
Proof.
  intros w email password env. cbv zeta. unfold loginToEventServer. simpl.
  destruct (env 0 SseStop) as [[]|e0]; simpl.
  - destruct (env 1 (SseLogin email password)) as [[]|e1]; simpl.
    + destruct (env 2 SseStart) as [[]|e2]; simpl; conjs; try reflexivity;
        try (split; intros;
             repeat match goal with
                    | H : _ \/ _ |- _ => destruct H
                    | H : False |- _ => destruct H
                    end;
             try discriminate;
             try (split; eexists; reflexivity);
             try (right; right; left; reflexivity));
        intros; try discriminate; split; reflexivity.
    + conjs; try reflexivity.
      * split.
        -- intros [H|[H|[]]]; discriminate H.
        -- intros [_ [y H]]. discriminate H.
      * intros x e H0 H1. inversion H1. repeat split.
      * intros x y z _ H. discriminate H.
      * intros e H. discriminate H.
  - conjs; try reflexivity.
    + split.
      * intros [H|[]]. discriminate H.
      * intros [[x H] _]. discriminate H.
    + intros x e H. discriminate H.
    + intros x y z H. discriminate H.
    + intros e H. inversion H. repeat split.
Qed.

Lemma rejected_event_login_leaves_the_stream_stopped_witness :
  wrongPassword SseStop = Resolved tt /\
  listening
    (world (fst (exec effect
                      (loginToEventServer (JStr "user@example.org")
                                          (JStr "wrong"))
                      (fun _ => wrongPassword)
                      (start (mkWorld true true))))) = false.
Proof.
  split; [reflexivity|].
  destruct (rejected_event_login_leaves_the_stream_stopped
              (mkWorld true true) (JStr "user@example.org") (JStr "wrong")
              (fun _ => wrongPassword))
    as (_ & _ & H & _).
  destruct (H tt "401" eq_refl eq_refl) as (_ & L & _).
  exact L.
Defined.

End LoginSpec.
